(** * rabbitmq-notification: a shallow embedding of the messaging facade

  The development follows the sources:
  - [Amqp]   : the part of the rabbitmq-c interface the repository calls
               (types, constants, and the transport as a type class);
  - [Utils]  : utils.cpp ([die], [die_on_error], [die_on_amqp_error]);
  - [Dump]   : utils.cpp ([dump_row], [rows_eq], [amqp_dump]);
  - [Common] : common.cpp ([serial], [Connection], [Channel], the
               dispatch worker);
  - [Setup]  : common.cpp (the constructor of [Connection],
               [Channel::setup_queue], [Channel::publish]);
  - [Gs]     : message_broker.hpp ([AmqpProperties], [Response::ok]);
  - [Broker] : the MessageBroker of the RPC pattern ([QueryInterface],
               [send], [listen]);
  - [Protocol] : vocabulary for the exchanges of [send] and [listen].

  [Recorder] is a transport that logs its calls, [Bits] a text codec for
  JSON documents, [Scenario] and [RpcScenario] concrete programs on them.
  The facts are in [CommonFacts], [BrokerFacts], [DumpFacts],
  [SetupFacts] and [ProtocolFacts].

  Integers of fixed width are [Z] with the wrap-around written out, C
  strings and [amqp_bytes_t] are [string] (a list of 8-bit characters),
  [std::map] is [gmap].  A C++ exception is the [Throw] case of [result];
  undefined behaviour is an outcome of its own ([Undefined], [None] for
  [set_type] and what calls it).
  Every member function of common.cpp runs under the lock of its
  connection: the model is sequential, one locked block at a time. *)

From Stdlib Require Import ZArith Lia Ascii.
From stdpp Require Import base option list gmap strings.

Local Open Scope Z_scope.

(* ===================================================================== *)
(** * The rabbitmq-c interface *)
(* ===================================================================== *)

Module Amqp.

(** [amqp_bytes_t]: a length-delimited byte buffer. *)
Definition amqp_bytes_t := string.
Definition amqp_empty_bytes : amqp_bytes_t := "".
Definition amqp_cstring_bytes (s : string) : amqp_bytes_t := s.

(** [amqp_response_type_enum]. *)
Inductive amqp_response_type_enum :=
| AMQP_RESPONSE_NONE
| AMQP_RESPONSE_NORMAL
| AMQP_RESPONSE_LIBRARY_EXCEPTION
| AMQP_RESPONSE_SERVER_EXCEPTION.

#[global] Instance amqp_response_type_eq_dec : EqDecision amqp_response_type_enum.
Proof. solve_decision. Defined.

(** [amqp_method_t]: the method id; the decoded method is only ever
    printed by the repository, so it is kept as its text. *)
Record amqp_method_t := { method_id : Z; method_decoded : string }.

(** [amqp_rpc_reply_t]. *)
Record amqp_rpc_reply_t := {
  reply_type : amqp_response_type_enum;
  reply : amqp_method_t;
  library_error : Z
}.

Definition AMQP_CONNECTION_CLOSE_METHOD : Z := 0x000A0032.
Definition AMQP_CHANNEL_CLOSE_METHOD : Z := 0x00140028.
Definition AMQP_BASIC_DELIVER_METHOD : Z := 0x003C003C.

Definition AMQP_FRAME_METHOD : Z := 1.
Definition AMQP_FRAME_HEADER : Z := 2.
Definition AMQP_FRAME_BODY : Z := 3.
Definition AMQP_FRAME_HEARTBEAT : Z := 8.

(** Bits of [amqp_basic_properties_t._flags]. *)
Definition AMQP_BASIC_CONTENT_TYPE_FLAG : Z := Z.shiftl 1 15.
Definition AMQP_BASIC_DELIVERY_MODE_FLAG : Z := Z.shiftl 1 12.
Definition AMQP_BASIC_CORRELATION_ID_FLAG : Z := Z.shiftl 1 10.
Definition AMQP_BASIC_REPLY_TO_FLAG : Z := Z.shiftl 1 9.
Definition AMQP_BASIC_TYPE_FLAG : Z := Z.shiftl 1 5.

(** [amqp_basic_properties_t], with the fields the repository touches.
    A field is meaningful only when its bit of [_flags] is set. *)
Record amqp_basic_properties_t := {
  _flags : Z;
  content_type : amqp_bytes_t;
  delivery_mode : Z;
  reply_to : amqp_bytes_t;
  correlation_id : amqp_bytes_t
}.


(** [amqp_message_t] and [amqp_envelope_t]. *)
Record amqp_message_t := {
  properties : amqp_basic_properties_t;
  body : amqp_bytes_t
}.

Record amqp_envelope_t := {
  channel : Z;
  consumer_tag : amqp_bytes_t;
  delivery_tag : Z;
  redelivered : bool;
  exchange : amqp_bytes_t;
  routing_key : amqp_bytes_t;
  message : amqp_message_t
}.

(** [amqp_frame_t]: the payload union is an inductive, so that the
    frame type and the payload always agree, as they do in a frame the
    library decoded. *)
Inductive amqp_frame_payload :=
| payload_method (m : amqp_method_t)
| payload_properties (class_id : Z) (body_size : Z)
                     (decoded : amqp_basic_properties_t)
| payload_body_fragment (fragment : amqp_bytes_t)
| payload_heartbeat.

Record amqp_frame_t := {
  frame_channel : Z;
  payload : amqp_frame_payload
}.

Definition frame_type (f : amqp_frame_t) : Z :=
  match payload f with
  | payload_method _ => AMQP_FRAME_METHOD
  | payload_properties _ _ _ => AMQP_FRAME_HEADER
  | payload_body_fragment _ => AMQP_FRAME_BODY
  | payload_heartbeat => AMQP_FRAME_HEARTBEAT
  end.

(** The calls of common.cpp into the library, over an abstract
    connection state [St] ([amqp_connection_state_t]).  Parameter
    positions are those of the library's prototypes:
    [amqp_basic_qos (state, channel, prefetch_size, prefetch_count, global)],
    [amqp_basic_ack (state, channel, delivery_tag, multiple)],
    [amqp_basic_nack (state, channel, delivery_tag, multiple, requeue)].
    A pointer result is the boolean "not NULL". *)
Class Transport (St : Type) := {
  amqp_channel_open : St -> Z -> St;
  amqp_channel_close : St -> Z -> St * amqp_rpc_reply_t;
  amqp_get_rpc_reply : St -> amqp_rpc_reply_t;
  amqp_basic_consume : St -> Z -> amqp_bytes_t -> amqp_bytes_t ->
                       bool -> bool -> bool -> St;
  amqp_basic_qos : St -> Z -> Z -> Z -> bool -> St * bool;
  amqp_basic_ack : St -> Z -> Z -> bool -> St * Z;
  amqp_basic_nack : St -> Z -> Z -> bool -> bool -> St * Z;
  amqp_maybe_release_buffers : St -> St;
  amqp_consume_message : St -> Z -> St * (amqp_rpc_reply_t * amqp_envelope_t)
}.

End Amqp.

(* ===================================================================== *)
(** * utils.cpp *)
(* ===================================================================== *)

Module Utils.
Import Amqp.

(** The [std::runtime_error] the helpers throw.  The message text is a
    formatting of the context and of the cause; the cause is kept. *)
Inductive runtime_error :=
| err_die (msg : string)
| err_status (context : string) (x : Z)
| err_reply (context : string) (x : amqp_rpc_reply_t).

Inductive result (A : Type) :=
| Return (a : A)
| Throw (e : runtime_error).
Arguments Return {A} a.
Arguments Throw {A} e.

(** [void die(const char *fmt, ...)] *)
Definition die {A} (msg : string) : result A := Throw (err_die msg).

(** [void die_on_error(int x, char const *context)] *)
Definition die_on_error (x : Z) (context : string) : result unit :=
  if x <? 0 then Throw (err_status context x) else Return tt.

(** [void die_on_amqp_error(amqp_rpc_reply_t x, char const *context)]:
    every case of the switch but [AMQP_RESPONSE_NORMAL] throws. *)
Definition die_on_amqp_error (x : amqp_rpc_reply_t) (context : string)
  : result unit :=
  match reply_type x with
  | AMQP_RESPONSE_NORMAL => Return tt
  | AMQP_RESPONSE_NONE => Throw (err_reply context x)
  | AMQP_RESPONSE_LIBRARY_EXCEPTION => Throw (err_reply context x)
  | AMQP_RESPONSE_SERVER_EXCEPTION => Throw (err_reply context x)
  end.

End Utils.

(* ===================================================================== *)
(** * common.cpp *)
(* ===================================================================== *)

Module Common.
Import Amqp Utils.

Section WithTransport.
Context {St : Type} `{Transport St}.

(** Objects live at addresses; a [Channel*] is an address or [nullptr]. *)
Definition nullptr : option N := None.

(** [class Connection]: the session handle, the registry [pool] and the
    [run] flag.

    Modelled from the spec: the declaration of [pool] is in common.h,
    which is missing; the spec gives the registry as a map
    "id -> Channel, weak back-reference", and common.cpp uses it through
    [pool[id] = this], [pool[id]->push_envelope], [pool.erase(id)],
    [pool.empty()] and [pool.clear()], the members of a
    [std::map<uint16_t, Channel*>]. *)
Record Connection := {
  state : St;
  pool : gmap Z (option N);
  run : bool
}.

(** [class Channel]: its [id], the [Connection*] it was built on, and the
    inbound queue fed by the dispatch worker. *)
Record Channel := {
  id : Z;
  connection : N;
  envelopes : list amqp_envelope_t
}.

(** The process: [static uint16_t serial], and the live objects. *)
Record Memory := {
  serial : Z;
  connections : gmap N Connection;
  channels : gmap N Channel
}.

(** What a member function does: it returns, throws, or runs into
    undefined behaviour (a null or dangling pointer is dereferenced). *)
Inductive outcome (A : Type) :=
| Done (a : A)
| Raised (e : runtime_error)
| Undefined.
Arguments Done {A} a.
Arguments Raised {A} e.
Arguments Undefined {A}.

Definition M (A : Type) : Type := Memory -> Memory * outcome A.

Definition ret {A} (a : A) : M A := fun m => (m, Done a).

Definition bind {A B} (x : M A) (k : A -> M B) : M B :=
  fun m =>
    match x m with
    | (m', Done a) => k a m'
    | (m', Raised e) => (m', Raised e)
    | (m', Undefined) => (m', Undefined)
    end.

Definition undefined {A} : M A := fun m => (m, Undefined).

Definition lift {A} (r : result A) : M A :=
  fun m => match r with Return a => (m, Done a) | Throw e => (m, Raised e) end.

Definition deref_channel (this : N) : M Channel :=
  fun m => match channels m !! this with
           | Some c => (m, Done c)
           | None => (m, Undefined)
           end.

Definition deref_connection (conn : N) : M Connection :=
  fun m => match connections m !! conn with
           | Some c => (m, Done c)
           | None => (m, Undefined)
           end.

Definition set_connection (conn : N) (c : Connection) : M unit :=
  fun m => ({| serial := serial m;
               connections := <[conn := c]> (connections m);
               channels := channels m |}, Done tt).

Definition set_channel (this : N) (c : Channel) : M unit :=
  fun m => ({| serial := serial m;
               connections := connections m;
               channels := <[this := c]> (channels m) |}, Done tt).

(** [++serial] on [static uint16_t serial]. *)
Definition pre_increment_serial : M Z :=
  fun m =>
    let id' := (serial m + 1) mod 65536 in
    ({| serial := id';
        connections := connections m;
        channels := channels m |}, Done id').

Definition delete_channel (this : N) : M unit :=
  fun m => ({| serial := serial m;
               connections := connections m;
               channels := delete this (channels m) |}, Done tt).

(** A library call on [conn->state]. *)
Definition transport {A} (conn : N) (f : St -> St * A) : M A :=
  bind (deref_connection conn) (fun c =>
  let '(st, a) := f (state c) in
  bind (set_connection conn {| state := st; pool := pool c; run := run c |})
       (fun _ => ret a)).

Definition set_pool (conn : N) (p : gmap Z (option N)) : M unit :=
  bind (deref_connection conn) (fun c =>
  set_connection conn {| state := state c; pool := p; run := run c |}).

End WithTransport.

Arguments Done {A} a.
Arguments Raised {A} e.
Arguments Undefined {A}.
Arguments Connection St : clear implicits.
Arguments Memory St : clear implicits.
Arguments M St A : clear implicits.

Declare Scope common_scope.
Notation "x <- e ;; k" := (bind e (fun x => k))
  (at level 100, e at next level, right associativity) : common_scope.
Notation "e ;;; k" := (bind e (fun _ => k))
  (at level 100, right associativity) : common_scope.
Local Open Scope common_scope.

Section Operations.
Context {St : Type} `{Transport St}.

(** [Channel::Channel(Connection *connection)].
    [this->id = ++serial] on a [uint16_t]: the increment wraps at 2^16.
    When [die_on_amqp_error] throws, no object comes to life, but [serial]
    and the session keep what was done to them. *)
Definition Channel_ctor (this conn : N) : M St unit :=
  deref_connection conn ;;;
  id' <- pre_increment_serial ;;
  transport conn (fun st => (amqp_channel_open st id', tt)) ;;;
  r <- transport conn (fun st => (st, amqp_get_rpc_reply st)) ;;
  lift (die_on_amqp_error r "Opening channel") ;;;
  set_channel this {| id := id'; connection := conn; envelopes := [] |}.

(** [Channel::~Channel()]: closes the channel on the broker; the object is
    gone whatever the reply (a reply that is not normal throws, out of a
    destructor).  The registry is not touched. *)
Definition Channel_dtor (this : N) : M St unit :=
  ch <- deref_channel this ;;
  r <- transport (connection ch) (fun st => amqp_channel_close st (id ch)) ;;
  delete_channel this ;;;
  lift (die_on_amqp_error r "Closing channel").

(** The locked block of [Channel::consume]: start a consumer, then
    [connection->pool[id] = this]. *)
Definition Channel_consume_register (this : N) (queue_name tag : string)
    (no_local no_ack exclusive : bool) : M St unit :=
  ch <- deref_channel this ;;
  transport (connection ch) (fun st =>
    (amqp_basic_consume st (id ch)
       (if decide (queue_name = "") then amqp_empty_bytes
        else amqp_cstring_bytes queue_name)
       (if decide (tag = "") then amqp_empty_bytes
        else amqp_cstring_bytes tag)
       no_local no_ack exclusive, tt)) ;;;
  r <- transport (connection ch) (fun st => (st, amqp_get_rpc_reply st)) ;;
  lift (die_on_amqp_error r "Consuming") ;;;
  c <- deref_connection (connection ch) ;;
  set_pool (connection ch) (<[id ch := Some this]> (pool c)).

(** [void Channel::qos(uint32_t prefetch_size, uint16_t prefetch_count,
    bool global)].  The call is
    [amqp_basic_qos(connection->state, id, prefetch_count, prefetch_size, global)]:
    the third argument of the library function is its [uint32_t
    prefetch_size], the fourth its [uint16_t prefetch_count], so
    [prefetch_size] is narrowed to 16 bits on the way. *)
Definition Channel_qos (this : N) (prefetch_size prefetch_count : Z)
    (global : bool) : M St unit :=
  ch <- deref_channel this ;;
  ok <- transport (connection ch) (fun st =>
          amqp_basic_qos st (id ch) prefetch_count (prefetch_size mod 65536)
                         global) ;;
  if negb ok then
    r <- transport (connection ch) (fun st => (st, amqp_get_rpc_reply st)) ;;
    lift (die_on_amqp_error r "basic.qos")
  else ret tt.

(** [int Channel::ack(uint64_t delivery_tag, bool multiple)] *)
Definition Channel_ack (this : N) (delivery_tag : Z) (multiple : bool)
  : M St Z :=
  ch <- deref_channel this ;;
  res <- transport (connection ch) (fun st =>
           amqp_basic_ack st (id ch) delivery_tag multiple) ;;
  lift (die_on_error res "basic.ack") ;;;
  ret res.

(** [int Channel::nack(uint64_t delivery_tag, bool multiple, bool requeue)] *)
Definition Channel_nack (this : N) (delivery_tag : Z)
    (multiple requeue : bool) : M St Z :=
  ch <- deref_channel this ;;
  res <- transport (connection ch) (fun st =>
           amqp_basic_nack st (id ch) delivery_tag multiple requeue) ;;
  lift (die_on_error res "basic.nack") ;;;
  ret res.

(** [Channel::push_envelope].

    Modelled from the spec: the member is defined in common.h, which is
    missing; the spec has the dispatch loop route a delivery "into that
    Channel's queue", a queue that "preserves arrival order". *)
Definition push_envelope (this : N) (e : amqp_envelope_t) : M St unit :=
  ch <- deref_channel this ;;
  set_channel this {| id := id ch; connection := connection ch;
                      envelopes := envelopes ch ++ [e] |}.

(** [pool[key]], the [operator[]] of [std::map]: a key that is missing is
    first inserted, with a value-initialised (null) pointer. *)
Definition pool_subscript (conn : N) (key : Z) : M St (option N) :=
  c <- deref_connection conn ;;
  match pool c !! key with
  | Some p => ret p
  | None => set_pool conn (<[key := nullptr]> (pool c)) ;;; ret nullptr
  end.

(** One turn of the body of [while (run)] in the worker thread of
    [Connection::Connection]; the poll waits for [tv_usec = 100]. *)
Definition worker_iteration (conn : N) : M St unit :=
  c <- deref_connection conn ;;
  if decide (pool c = ∅) then ret tt
  else
    transport conn (fun st => (amqp_maybe_release_buffers st, tt)) ;;;
    polled <- transport conn (fun st => amqp_consume_message st 100) ;;
    let '(res, envelope) := polled in
    if decide (reply_type res = AMQP_RESPONSE_NORMAL) then
      p <- pool_subscript conn (channel envelope) ;;
      match p with
      | Some target => push_envelope target envelope
      | None => undefined
      end
    else ret tt.

(** [while (run) { ... }], for at most [turns] turns. *)
Fixpoint worker (turns : nat) (conn : N) : M St unit :=
  match turns with
  | O => ret tt
  | S n =>
      c <- deref_connection conn ;;
      if run c then worker_iteration conn ;;; worker n conn else ret tt
  end.

(** ** Executions

    The constructions, destructions and registrations of channels a
    program performs, in their order; an exception is caught by the
    caller, and the program goes on. *)
Inductive operation :=
| op_new (this conn : N)
| op_delete (this : N)
| op_consume (this : N) (queue_name tag : string)
             (no_local no_ack exclusive : bool).

Definition perform (o : operation) (m : Memory St) : Memory St :=
  match o with
  | op_new this conn => (Channel_ctor this conn m).1
  | op_delete this => (Channel_dtor this m).1
  | op_consume this q t nl na ex =>
      (Channel_consume_register this q t nl na ex m).1
  end.

Definition execute (ops : list operation) (m : Memory St) : Memory St :=
  fold_left (fun m o => perform o m) ops m.

Definition is_new (o : operation) : bool :=
  match o with op_new _ _ => true | _ => false end.

(** The number of channel constructions in an execution. *)
Definition constructions (ops : list operation) : Z :=
  Z.of_nat (length (filter (fun o => is_new o = true) ops)).


(** The memory after a library call on the session of [conn]. *)
Definition called (conn : N) (c : Connection St) (st : St) (m : Memory St)
  : Memory St :=
  {| serial := serial m;
     connections :=
       <[conn := {| state := st; pool := pool c; run := run c |}]>
         (connections m);
     channels := channels m |}.

(** The memory after the poll of one turn. *)
Definition polled (conn : N) (c : Connection St) (m : Memory St)
  : Memory St :=
  called conn c
    (amqp_consume_message (amqp_maybe_release_buffers (state c)) 100).1 m.


(** What an operation adds to the number of constructions. *)
Definition cost (o : operation) : Z := if is_new o then 1 else 0.





End Operations.
End Common.

(* ===================================================================== *)
(** * A transport that records its calls *)
(* ===================================================================== *)

(** A session that logs every call (most recent first) and answers from
    a fixed script: [rpc_reply] to [amqp_get_rpc_reply] and
    [amqp_channel_close], [status] to ack and nack, [qos_ok] to qos, and
    the deliveries of [inbound], one per poll (a poll on an exhausted
    script times out). *)
Module Recorder.
Import Amqp.

Inductive call :=
| call_channel_open (ch : Z)
| call_channel_close (ch : Z)
| call_basic_consume (ch : Z) (queue tag : amqp_bytes_t)
                     (no_local no_ack exclusive : bool)
| call_basic_qos (ch prefetch_size prefetch_count : Z) (global : bool)
| call_basic_ack (ch delivery_tag : Z) (multiple : bool)
| call_basic_nack (ch delivery_tag : Z) (multiple requeue : bool)
| call_maybe_release_buffers
| call_consume_message (timeout_usec : Z).

Record session := {
  calls : list call;
  rpc_reply : amqp_rpc_reply_t;
  status : Z;
  qos_ok : bool;
  inbound : list amqp_envelope_t
}.

Definition log (c : call) (s : session) : session :=
  {| calls := c :: calls s; rpc_reply := rpc_reply s; status := status s;
     qos_ok := qos_ok s; inbound := inbound s |}.

Definition no_method : amqp_method_t :=
  {| method_id := 0; method_decoded := "" |}.

Definition normal_reply : amqp_rpc_reply_t :=
  {| reply_type := AMQP_RESPONSE_NORMAL; reply := no_method;
     library_error := 0 |}.

(** [AMQP_STATUS_TIMEOUT] is -13. *)
Definition timeout_reply : amqp_rpc_reply_t :=
  {| reply_type := AMQP_RESPONSE_LIBRARY_EXCEPTION; reply := no_method;
     library_error := -13 |}.

Definition channel_closed_reply : amqp_rpc_reply_t :=
  {| reply_type := AMQP_RESPONSE_SERVER_EXCEPTION;
     reply := {| method_id := AMQP_CHANNEL_CLOSE_METHOD;
                 method_decoded := "PRECONDITION_FAILED" |};
     library_error := 0 |}.

Definition blank_properties : amqp_basic_properties_t :=
  {| _flags := 0; content_type := ""; delivery_mode := 0; reply_to := "";
     correlation_id := "" |}.

Definition empty_envelope : amqp_envelope_t :=
  {| channel := 0; consumer_tag := ""; delivery_tag := 0;
     redelivered := false; exchange := ""; routing_key := "";
     message := {| properties := blank_properties; body := "" |} |}.

Definition poll (timeout_usec : Z) (s : session)
  : session * (amqp_rpc_reply_t * amqp_envelope_t) :=
  let s' := log (call_consume_message timeout_usec) s in
  match inbound s with
  | [] => (s', (timeout_reply, empty_envelope))
  | e :: rest =>
      ({| calls := calls s'; rpc_reply := rpc_reply s; status := status s;
          qos_ok := qos_ok s; inbound := rest |}, (normal_reply, e))
  end.

#[global] Instance recorder_transport : Transport session := {
  amqp_channel_open s ch := log (call_channel_open ch) s;
  amqp_channel_close s ch := (log (call_channel_close ch) s, rpc_reply s);
  amqp_get_rpc_reply s := rpc_reply s;
  amqp_basic_consume s ch q t nl na ex :=
    log (call_basic_consume ch q t nl na ex) s;
  amqp_basic_qos s ch size count global :=
    (log (call_basic_qos ch size count global) s, qos_ok s);
  amqp_basic_ack s ch tag multiple :=
    (log (call_basic_ack ch tag multiple) s, status s);
  amqp_basic_nack s ch tag multiple requeue :=
    (log (call_basic_nack ch tag multiple requeue) s, status s);
  amqp_maybe_release_buffers s := log call_maybe_release_buffers s;
  amqp_consume_message s timeout_usec := poll timeout_usec s
}.

(** A fresh session that accepts everything. *)
Definition accepting (deliveries : list amqp_envelope_t) : session :=
  {| calls := []; rpc_reply := normal_reply; status := 0; qos_ok := true;
     inbound := deliveries |}.

(** A fresh session whose ack and nack report [st]. *)
Definition answering (st : Z) : session :=
  {| calls := []; rpc_reply := normal_reply; status := st; qos_ok := true;
     inbound := [] |}.

(** The broker closes the channel on the next synchronous method. *)
Definition close_channel (s : session) : session :=
  {| calls := calls s; rpc_reply := channel_closed_reply; status := status s;
     qos_ok := false; inbound := inbound s |}.

End Recorder.

(* ===================================================================== *)
(** * Programs on the recording transport *)
(* ===================================================================== *)

Module Scenario.
Import Amqp Utils Common Recorder.

(** A delivery for channel [ch]. *)
Definition envelope_on (ch : Z) (text : string) : amqp_envelope_t :=
  {| channel := ch; consumer_tag := "ctag"; delivery_tag := 1;
     redelivered := false; exchange := "amq.direct"; routing_key := "test";
     message := {| properties := blank_properties; body := text |} |}.

(** A process with the connections 0 and 1, before any channel. *)
Definition initial (s : session) : Memory session :=
  {| serial := 0;
     connections :=
       <[0%N := {| state := s; pool := ∅; run := true |}]>
         {[1%N := {| state := s; pool := ∅; run := true |}]};
     channels := ∅ |}.

(** One channel, at address 10 on connection 0, not consuming. *)
Definition opened (s : session) : Memory session :=
  execute [op_new 10 0] (initial s).

(** The same channel once [consume] has registered it. *)
Definition consuming (s : session) : Memory session :=
  execute [op_new 10 0; op_consume 10 "rpc" "" false true false] (initial s).

(** The calls connection [conn] has made, oldest first. *)
Definition calls_of (conn : N) (m : Memory session) : list call :=
  match connections m !! conn with
  | Some c => rev (calls (state c))
  | None => []
  end.

Definition pool_of (conn : N) (m : Memory session) : gmap Z (option N) :=
  match connections m !! conn with
  | Some c => pool c
  | None => ∅
  end.

Definition queue_of (this : N) (m : Memory session) : list amqp_envelope_t :=
  match channels m !! this with
  | Some ch => envelopes ch
  | None => []
  end.

(** A channel is built at address 10 on connection 0; then [spare]
    channels are built and destroyed again at address 11 on connection
    1; then a channel is built at address 12 on connection 1. *)
Definition churn (spare : N) : list operation :=
  op_new 10 0
  :: concat (replicate (N.to_nat spare) [op_new 11 1; op_delete 11])
  ++ [op_new 12 1].


End Scenario.

(* ===================================================================== *)
(** * message_broker.hpp *)
(* ===================================================================== *)

Module Gs.

(** [struct AmqpProperties]: every field a [std::optional]. *)
Record AmqpProperties := {
  content_type : option string;
  content_encoding : option string;
  delivery_mode : option Z;
  priority : option Z;
  correlation_id : option string;
  reply_to : option string;
  expiration : option string;
  message_id : option string;
  timestamp : option Z;
  type : option string;
  user_id : option string;
  app_id : option string;
  cluster_id : option string
}.

(** [class AmqpMessage]: a body and its properties. *)
Record AmqpMessage := {
  body : string;
  properties : AmqpProperties
}.

(** The string constants of [class MessageBroker], with the values their
    declarations document. *)
Definition MESSAGE_TYPE_REQUEST : string := "request".
Definition MESSAGE_TYPE_RESPONSE : string := "response".
Definition MESSAGE_TYPE_ERROR : string := "error".

(** [class Response : public Message] *)
Definition Response := AmqpMessage.

(** [opt != value] for a [std::optional]: true when [opt] is empty,
    else [*opt != value]. *)
Definition optional_ne (opt : option string) (value : string) : bool :=
  match opt with
  | Some x => negb (String.eqb x value)
  | None => true
  end.

(** [bool ok() const { return properties().type != MESSAGE_TYPE_ERROR; }] *)
Definition ok (r : Response) : bool :=
  optional_ne (type (properties r)) MESSAGE_TYPE_ERROR.

Definition no_properties : AmqpProperties :=
  {| content_type := None; content_encoding := None; delivery_mode := None;
     priority := None; correlation_id := None; reply_to := None;
     expiration := None; message_id := None; timestamp := None;
     type := None; user_id := None; app_id := None; cluster_id := None |}.

Definition with_type (t : option string) (p : AmqpProperties)
  : AmqpProperties :=
  {| content_type := content_type p; content_encoding := content_encoding p;
     delivery_mode := delivery_mode p; priority := priority p;
     correlation_id := correlation_id p; reply_to := reply_to p;
     expiration := expiration p; message_id := message_id p;
     timestamp := timestamp p; type := t; user_id := user_id p;
     app_id := app_id p; cluster_id := cluster_id p |}.

End Gs.

(* ===================================================================== *)
(** * The RPC broker: QueryInterface, send, listen *)
(* ===================================================================== *)

Module Broker.
Import Amqp Utils.

(** ** JSON documents (json-glib's [JsonNode])

    A node is null, a value (an integer, a double, a string or a
    boolean), an array or an object.  A double is the finite binary
    number [mantissa * 2 ^ exponent]. *)
#[warnings="-register-all"]
Inductive JsonNode :=
| JsonNull
| JsonInt (z : Z)
| JsonDouble (mantissa exponent : Z)
| JsonString (s : string)
| JsonBoolean (b : bool)
| JsonArray (elements : list JsonNode)
| JsonObject (members : list (string * JsonNode)).

Fixpoint assoc (k : string) (members : list (string * JsonNode))
  : option JsonNode :=
  match members with
  | [] => None
  | (k', v) :: rest => if decide (k = k') then Some v else assoc k rest
  end.

(** [json_reader_read_member]: the member of an object, an error on
    anything else. *)
Definition read_member (k : string) (node : option JsonNode)
  : option JsonNode :=
  match node with
  | Some (JsonObject members) => assoc k members
  | _ => None
  end.

(** [json_reader_get_int_value]: the integer of a value node, a double
    converted toward zero, 0 for a string; 0 on an error, which a node
    that holds no value (null, array, object) is. *)
Definition get_int_value (node : option JsonNode) : Z :=
  match node with
  | Some (JsonInt z) => z
  | Some (JsonDouble m e) =>
      if 0 <=? e then m * 2 ^ e else Z.quot m (2 ^ (- e))
  | Some (JsonBoolean b) => if b then 1 else 0
  | _ => 0
  end.

(** [json_reader_get_string_value]: [NULL] (here [None]) on an error. *)
Definition get_string_value (node : option JsonNode) : option string :=
  match node with
  | Some (JsonString s) => Some s
  | _ => None
  end.

(** The prefix of a buffer a C string function sees: up to the first NUL. *)
Fixpoint c_str (s : string) : string :=
  match s with
  | EmptyString => EmptyString
  | String c rest =>
      if decide (c = Ascii.zero) then EmptyString else String c (c_str rest)
  end.

Fixpoint has_nul (s : string) : bool :=
  match s with
  | EmptyString => false
  | String c rest => if decide (c = Ascii.zero) then true else has_nul rest
  end.

Definition QUERY_REQUEST : string := "request".
Definition QUERY_ERROR : string := "error".

(** ** [MessageBroker::QueryInterface]

    [_body] is a [JsonNode*]; the default constructor only sets [_id],
    and [None] stands for a body that was never set. *)
Record QueryInterface := {
  _id : Z;
  _type : string;
  _body : option JsonNode
}.

(** [Request] and [Response] derive from [QueryInterface]. *)
Definition Request := QueryInterface.
Definition Response := QueryInterface.

Definition QueryInterface_default : QueryInterface :=
  {| _id := 0; _type := ""; _body := None |}.

(** [bool set_type(const char *type) { _type = type; }].  The function
    is declared [bool] and has no [return] statement: after the
    assignment control flows off the end of a value-returning function,
    which is undefined behaviour for every object and every argument,
    whether or not the caller reads the value.  (With a null [type],
    here [None], the assignment is undefined already.)  [None] stands
    for undefined behaviour. *)
Definition set_type (q : QueryInterface) (type : option string)
  : option QueryInterface :=
  None.

Definition set_body_node (q : QueryInterface) (node : JsonNode)
  : QueryInterface :=
  {| _id := _id q; _type := _type q; _body := Some node |}.

Section Codec.

(** json-glib's text parser and generator. *)
Variable json_parser_load_from_data : string -> option JsonNode.
Variable json_generator_to_data : JsonNode -> string.

(** [QueryInterface(const char *json_str)]: the text is parsed, the
    "id" member is read into [_id], and the "type" member is handed to
    [set_type].  That call is undefined behaviour, so no object is ever
    constructed from a text: the result is [None] for every text.  What
    the source has after the call - the copy of the "body" member
    through [build_json_from_json_reader], lines 347-358 - lies behind
    it and is not modelled. *)
Definition QueryInterface_ctor (json_str : string) : option QueryInterface :=
  let root := json_parser_load_from_data (c_str json_str) in
  let id' := get_int_value (read_member "id" root) in
  set_type {| _id := id'; _type := ""; _body := None |}
           (get_string_value (read_member "type" root)).

(** [set_body(const char *json_str)]: [false] and no change when the
    text does not parse. *)
Definition set_body (q : QueryInterface) (json_str : string)
  : QueryInterface * bool :=
  match json_parser_load_from_data (c_str json_str) with
  | Some root => (set_body_node q root, true)
  | None => (q, false)
  end.

(** [json_str()]: the object with the members "id", "type" and "body",
    as text.  [None] when no body was set: the builder is then handed a
    null node. *)
Definition json_str (q : QueryInterface) : option string :=
  match _body q with
  | Some b =>
      Some (json_generator_to_data
              (JsonObject [("id", JsonInt (_id q));
                           ("type", JsonString (_type q));
                           ("body", b)]))
  | None => None
  end.

(** ** [MessageBroker::send] *)

(** What [amqp_simple_wait_frame] hands back, call after call: its
    result and the frame it filled in. *)
Definition wait_result : Type := Z * amqp_frame_t.

(** The answers of the broker and of the allocator to one [send]:
    [queue_copied] and [reply_to_copied] say whether the two calls of
    [amqp_bytes_malloc_dup] returned a buffer. *)
Record script := {
  declare_reply : amqp_rpc_reply_t;
  declared_queue : amqp_bytes_t;
  queue_copied : bool;
  reply_to_copied : bool;
  publish_status : Z;
  consume_reply : amqp_rpc_reply_t;
  frames : list wait_result
}.

(** An [amqp_basic_publish] call. *)
Record publication := {
  pub_exchange : amqp_bytes_t;
  pub_routing_key : amqp_bytes_t;
  pub_properties : amqp_basic_properties_t;
  pub_body : amqp_bytes_t
}.

Definition rpc_flags : Z :=
  Z.lor (Z.lor (Z.lor AMQP_BASIC_CONTENT_TYPE_FLAG
                      AMQP_BASIC_DELIVERY_MODE_FLAG)
               AMQP_BASIC_REPLY_TO_FLAG)
        AMQP_BASIC_CORRELATION_ID_FLAG.

(** The properties [send] publishes with: the correlation id is the
    literal ["1"]. *)
Definition send_properties (reply_to_queue : amqp_bytes_t)
  : amqp_basic_properties_t :=
  {| _flags := rpc_flags;
     content_type := amqp_cstring_bytes "application/json";
     delivery_mode := 2;
     reply_to := reply_to_queue;
     correlation_id := amqp_cstring_bytes "1" |}.

(** How the wait for the answer ends.  [Blocked]: no frame is left and
    [amqp_simple_wait_frame], which takes no timeout, has not returned.
    [Aborted]: [abort()] or a failed [assert].  [Undefined]: the body
    fragment is read from a frame that is not a body frame, or the
    terminator is written past the end of the [strdup] copy. *)
Inductive wait_outcome :=
| Reply (p : amqp_basic_properties_t) (json_str : string)
| NoReply
| Aborted
| Undefined
| Blocked.

Inductive body_outcome :=
| Exited (body_received : Z) (frame : amqp_frame_t)
| BodyAborted
| BodyBlocked.

Definition fragment_len (fragment : amqp_bytes_t) : Z :=
  Z.of_nat (String.length fragment).

(** [while (body_received < body_target) { ... }] on [size_t] counters;
    [frame] is the frame variable, overwritten by every wait.  The
    [assert] is compiled in. *)
Fixpoint body_loop (body_target body_received : Z) (frame : amqp_frame_t)
    (inbound : list wait_result) : body_outcome :=
  if body_received <? body_target then
    match inbound with
    | [] => BodyBlocked
    | (result, frame') :: rest =>
        if result <? 0 then Exited body_received frame
        else
          match payload frame' with
          | payload_body_fragment fragment =>
              let body_received' :=
                (body_received + fragment_len fragment) mod 2 ^ 64 in
              if body_received' <=? body_target
              then body_loop body_target body_received' frame' rest
              else BodyAborted
          | _ => BodyAborted
          end
    end
  else Exited body_received frame.

(** After the body loop: [break] when the body is short, else the
    answer is cut out of [frame.payload.body_fragment], the fragment of
    the frame received last. *)
Definition after_body (p : amqp_basic_properties_t) (body_target : Z)
    (b : body_outcome) : wait_outcome :=
  match b with
  | BodyBlocked => Blocked
  | BodyAborted => Aborted
  | Exited body_received frame =>
      if decide (body_received = body_target) then
        match payload frame with
        | payload_body_fragment fragment =>
            if has_nul fragment then Undefined else Reply p fragment
        | _ => Undefined
        end
      else NoReply
  end.

(** From the wait for the header frame on. *)
Definition after_deliver (inbound : list wait_result) : wait_outcome :=
  match inbound with
  | [] => Blocked
  | (result, frame) :: rest =>
      if result <? 0 then NoReply
      else
        match payload frame with
        | payload_properties _ body_size p =>
            let body_target := body_size mod 2 ^ 64 in
            after_body p body_target (body_loop body_target 0 frame rest)
        | _ => Aborted
        end
  end.

(** The [for (;;)] of [send]: frames are skipped up to a [basic.deliver]
    method frame; whatever follows it ends the loop. *)
Fixpoint wait_reply (inbound : list wait_result) : wait_outcome :=
  match inbound with
  | [] => Blocked
  | (result, frame) :: rest =>
      if result <? 0 then NoReply
      else
        match payload frame with
        | payload_method m =>
            if decide (method_id m = AMQP_BASIC_DELIVER_METHOD)
            then after_deliver rest
            else wait_reply rest
        | _ => wait_reply rest
        end
  end.

Inductive send_outcome :=
| Returned (response : option Response)
| Thrown (e : runtime_error)
| SendAborted
| SendUndefined
| SendBlocked.

(** The request [send] publishes; [None] when the message does not parse
    (the request body is then never set). *)
Definition send_publication (exchange routingkey message : string)
    (reply_to_queue : amqp_bytes_t) : option publication :=
  let request := fst (set_body QueryInterface_default message) in
  match json_str request with
  | None => None
  | Some messagebody =>
      Some {| pub_exchange := amqp_cstring_bytes (c_str exchange);
              pub_routing_key := amqp_cstring_bytes (c_str routingkey);
              pub_properties := send_properties reply_to_queue;
              pub_body := amqp_cstring_bytes (c_str messagebody) |}
  end.

(** The end of [send]: a reply text goes to the constructor of
    [Response] - which is undefined behaviour, see [QueryInterface_ctor]
    - and a failed wait leaves the null pointer. *)
Definition respond (o : wait_outcome) : send_outcome :=
  match o with
  | Reply _ text =>
      match QueryInterface_ctor text with
      | Some response => Returned (Some response)
      | None => SendUndefined
      end
  | NoReply => Returned None
  | Aborted => SendAborted
  | Undefined => SendUndefined
  | Blocked => SendBlocked
  end.

(** [Response::Ptr send(exchange, routingkey, message)].  When a copy
    of the queue name cannot be allocated it returns [nullptr] before
    anything is published. *)
Definition send (exchange routingkey message : string) (s : script)
  : send_outcome :=
  match send_publication exchange routingkey message (declared_queue s) with
  | None => SendUndefined
  | Some _ =>
      match die_on_amqp_error (declare_reply s) "Declaring queue" with
      | Throw e => Thrown e
      | Return _ =>
      if negb (queue_copied s) then Returned None
      else if negb (reply_to_copied s) then Returned None
      else
      match die_on_error (publish_status s) "Publishing" with
      | Throw e => Thrown e
      | Return _ =>
      match die_on_amqp_error (consume_reply s) "Consuming" with
      | Throw e => Thrown e
      | Return _ => respond (wait_reply (frames s))
      end end end
  end.

(** [send] gets as far as its wait: the message parses, the queue is
    declared and its name copied, the request published and the
    consumer started. *)
Definition set_up (exchange routingkey message : string) (s : script)
  : Prop :=
  is_Some (send_publication exchange routingkey message (declared_queue s))
  /\ reply_type (declare_reply s) = AMQP_RESPONSE_NORMAL
  /\ queue_copied s = true
  /\ reply_to_copied s = true
  /\ 0 <= publish_status s
  /\ reply_type (consume_reply s) = AMQP_RESPONSE_NORMAL.

(** ** [MessageBroker::listen] *)

(** The user handler: it reads the request, fills in the response it is
    handed, and says whether it succeeded. *)
Definition handler : Type := Request -> Response -> bool * Response.

Definition listen_properties (inbound : amqp_basic_properties_t)
  : amqp_basic_properties_t :=
  {| _flags := rpc_flags;
     content_type := amqp_cstring_bytes "application/json";
     delivery_mode := 2;
     reply_to := reply_to inbound;
     correlation_id := correlation_id inbound |}.

(** What a [strlen]-based call reads at the [bytes] pointer of an
    [amqp_bytes_t]: the buffer is not NUL-terminated and its [len] is
    not looked at, so the text runs on into the memory behind the
    buffer, [behind], up to the first NUL byte.  [None]: there is no
    NUL byte in the buffer nor in the memory behind it. *)
Definition read_c_string (bytes : amqp_bytes_t) (behind : string)
  : option string :=
  if has_nul (bytes +:+ behind) then Some (c_str (bytes +:+ behind))
  else None.

(** One delivery of the serve loop, as the broker and the process answer
    it: the reply of [amqp_consume_message], the envelope, the memory
    behind the buffers of its body and of its reply-to, whether
    [amqp_bytes_malloc_dup] returned a buffer, the status of the
    publish. *)
Record delivery := {
  consumed : amqp_rpc_reply_t;
  envelope : amqp_envelope_t;
  behind_body : string;
  behind_reply_to : string;
  reply_to_dup : bool;
  published : Z
}.

(** The reply the serve loop publishes for one delivery: the request is
    constructed from the C string at [envelope.message.body.bytes], the
    handler is called, a failure forces the type tag with [set_type],
    and the text of the response goes to the C string at
    [envelope.message.properties.reply_to.bytes].  [None] is undefined
    behaviour; the constructor of the request is, for every delivery. *)
Definition listen_reply (callback : handler) (d : delivery)
  : option publication :=
  let inbound := properties (message (envelope d)) in
  match read_c_string (body (message (envelope d))) (behind_body d) with
  | None => None
  | Some request_text =>
  match QueryInterface_ctor request_text with
  | None => None
  | Some request =>
      let '(succeeded, response) := callback request QueryInterface_default in
      match (if succeeded then Some response
             else set_type response (Some QUERY_ERROR)) with
      | None => None
      | Some response =>
      match read_c_string (reply_to inbound) (behind_reply_to d) with
      | None => None
      | Some routing_key =>
      match json_str response with
      | None => None
      | Some text =>
          Some {| pub_exchange := amqp_empty_bytes;
                  pub_routing_key := amqp_cstring_bytes routing_key;
                  pub_properties := listen_properties inbound;
                  pub_body := amqp_cstring_bytes (c_str text) |}
      end end end
  end end.

(** How the worker thread of [listen] ends.  [Listen_terminated]: an
    exception leaves the function of the [std::thread], which calls
    [std::terminate].  [Listen_undefined]: undefined behaviour; leaving
    the loop is, since the lambda, which returns [int], then flows off
    its end, and so is a [return 1] of the lambda, since [listen],
    declared [int], then flows off its end.  [Listen_blocked]: no
    delivery is left and [amqp_consume_message], called without a
    timeout, has not returned. *)
Inductive listen_outcome :=
| Listen_terminated (e : runtime_error)
| Listen_undefined
| Listen_blocked.

(** The [for (;;)] of the worker of [listen], with the replies it
    publishes. *)
Fixpoint serve (callback : handler) (inbound : list delivery)
  : list publication * listen_outcome :=
  match inbound with
  | [] => ([], Listen_blocked)
  | d :: rest =>
      if decide (reply_type (consumed d) = AMQP_RESPONSE_NORMAL) then
        if negb (reply_to_dup d) then ([], Listen_undefined)
        else
          match listen_reply callback d with
          | None => ([], Listen_undefined)
          | Some pub =>
              match die_on_error (published d) "Publishing" with
              | Throw e => ([pub], Listen_terminated e)
              | Return _ =>
                  let '(pubs, o) := serve callback rest in (pub :: pubs, o)
              end
          end
      else ([], Listen_undefined)
  end.

(** The answers of the broker and of the allocator to one [listen]. *)
Record listen_script := {
  queue_reply : amqp_rpc_reply_t;
  queuename_copied : bool;
  bind_reply : amqp_rpc_reply_t;
  consumer_reply : amqp_rpc_reply_t;
  deliveries : list delivery
}.

(** The worker of [listen(exchange, bindingkey, callback)]: declare the
    queue, copy its name, bind it, start the consumer, serve. *)
Definition listen (callback : handler) (s : listen_script)
  : list publication * listen_outcome :=
  match die_on_amqp_error (queue_reply s) "Declaring queue" with
  | Throw e => ([], Listen_terminated e)
  | Return _ =>
  if negb (queuename_copied s) then ([], Listen_undefined)
  else
  match die_on_amqp_error (bind_reply s) "Binding queue" with
  | Throw e => ([], Listen_terminated e)
  | Return _ =>
  match die_on_amqp_error (consumer_reply s) "Consuming" with
  | Throw e => ([], Listen_terminated e)
  | Return _ => serve callback (deliveries s)
  end end end.

End Codec.
(** ** Frames of a reply, for stating what [send] does with them *)

Definition method_frame (ch id : Z) : amqp_frame_t :=
  {| frame_channel := ch;
     payload := payload_method {| method_id := id; method_decoded := "" |} |}.

Definition deliver_frame (ch : Z) : amqp_frame_t :=
  method_frame ch AMQP_BASIC_DELIVER_METHOD.

Definition header_frame (ch body_size : Z) (p : amqp_basic_properties_t)
  : amqp_frame_t :=
  {| frame_channel := ch; payload := payload_properties 60 body_size p |}.

Definition body_frame (ch : Z) (fragment : amqp_bytes_t) : amqp_frame_t :=
  {| frame_channel := ch; payload := payload_body_fragment fragment |}.

Definition heartbeat_frame : amqp_frame_t :=
  {| frame_channel := 0; payload := payload_heartbeat |}.

Definition is_deliver (f : amqp_frame_t) : bool :=
  match payload f with
  | payload_method m => bool_decide (method_id m = AMQP_BASIC_DELIVER_METHOD)
  | _ => false
  end.

(** A wait the [for (;;)] goes past: it succeeded, and the frame is not
    a [basic.deliver] method frame. *)
Definition skipped (w : wait_result) : bool :=
  (0 <=? w.1) && negb (is_deliver w.2).

(** The fragment of a body frame. *)
Definition fragment_of (f : amqp_frame_t) : amqp_bytes_t :=
  match payload f with
  | payload_body_fragment fragment => fragment
  | _ => ""
  end.

(** A wait that succeeded with a body frame. *)
Definition is_body (w : wait_result) : bool :=
  (0 <=? w.1)
  && match payload w.2 with payload_body_fragment _ => true | _ => false end.

(** The body a delivery carries: its fragments, in order. *)
Definition assembled (parts : list wait_result) : amqp_bytes_t :=
  foldr (fun w acc => fragment_of w.2 +:+ acc) "" parts.

Definition total_len (parts : list wait_result) : Z :=
  foldr (fun w acc => fragment_len (fragment_of w.2) + acc) 0 parts.




(** Properties with correlation id [cid], as a reply carries them. *)
Definition reply_properties (cid : string) : amqp_basic_properties_t :=
  {| _flags := Z.lor AMQP_BASIC_CONTENT_TYPE_FLAG
                     AMQP_BASIC_CORRELATION_ID_FLAG;
     content_type := "application/json";
     delivery_mode := 0;
     reply_to := "";
     correlation_id := cid |}.

End Broker.

(* ===================================================================== *)
(** * A text codec for JSON documents *)
(* ===================================================================== *)

(** A generator and a parser that invert each other, standing in for
    json-glib where a concrete codec is needed: a document is written
    as the binary digits of its code as a [gen_tree]. *)
Module Bits.
Import Broker.

Definition leaf : Type := Z + string + bool + Z * Z + unit.

Fixpoint to_tree (j : JsonNode) : gen_tree leaf :=
  match j with
  | JsonNull => GenLeaf (inr tt)
  | JsonInt z => GenLeaf (inl (inl (inl (inl z))))
  | JsonDouble m e => GenLeaf (inl (inr (m, e)))
  | JsonString s => GenLeaf (inl (inl (inl (inr s))))
  | JsonBoolean b => GenLeaf (inl (inl (inr b)))
  | JsonArray elements => GenNode 1 (map to_tree elements)
  | JsonObject members =>
      GenNode 0 (map (fun kv =>
                        GenNode 2 [GenLeaf (inl (inl (inl (inr (fst kv)))));
                                   to_tree (snd kv)])
                     members)
  end.

Fixpoint of_tree (t : gen_tree leaf) : JsonNode :=
  match t with
  | GenLeaf (inr _) => JsonNull
  | GenLeaf (inl (inl (inl (inl z)))) => JsonInt z
  | GenLeaf (inl (inr (m, e))) => JsonDouble m e
  | GenLeaf (inl (inl (inl (inr s)))) => JsonString s
  | GenLeaf (inl (inl (inr b))) => JsonBoolean b
  | GenNode 0 ts =>
      JsonObject (map (fun t' =>
                         match t' with
                         | GenNode _ [GenLeaf (inl (inl (inl (inr k)))); v] =>
                             (k, of_tree v)
                         | _ => (EmptyString, JsonNull)
                         end)
                      ts)
  | GenNode _ ts => JsonArray (map of_tree ts)
  end.

Fixpoint bits_of_pos (p : positive) : string :=
  match p with
  | xH => EmptyString
  | xO q => String "0"%char (bits_of_pos q)
  | xI q => String "1"%char (bits_of_pos q)
  end.

Fixpoint pos_of_bits (s : string) : positive :=
  match s with
  | EmptyString => xH
  | String c rest =>
      if Ascii.eqb c "0"%char then xO (pos_of_bits rest) else xI (pos_of_bits rest)
  end.

Definition to_data (j : JsonNode) : string :=
  bits_of_pos (encode (to_tree j)).

Definition load_from_data (text : string) : option JsonNode :=
  of_tree <$> decode (pos_of_bits text).

End Bits.

(* ===================================================================== *)
(** * RPC calls on the text codec *)
(* ===================================================================== *)

Module RpcScenario.
Import Amqp Utils Broker.

(** The request of the repository's example, as a document. *)
Definition query : JsonNode :=
  JsonObject [("query_name", JsonString "get-user-by-id");
              ("query_data", JsonObject [("id", JsonInt 1)])].

Definition query_text : string := Bits.to_data query.

Definition alice : JsonNode :=
  JsonObject [("id", JsonInt 1); ("name", JsonString "Alice")].


(** The broker accepts everything and hands [inbound] to the wait. *)
Definition session (inbound : list wait_result) : script :=
  {| declare_reply := Recorder.normal_reply;
     declared_queue := "amq.gen-1";
     queue_copied := true;
     reply_to_copied := true;
     publish_status := 0;
     consume_reply := Recorder.normal_reply;
     frames := inbound |}.


(** A delivery whose nine bytes of body come in two body frames. *)
Definition split_delivery : list wait_result :=
  [(0, deliver_frame 1);
   (0, header_frame 1 9 (reply_properties "1"));
   (0, body_frame 1 "[1,2,");
   (0, body_frame 1 "3,4]")].

(** A request as it reaches [listen]. *)
Definition request_text : string :=
  Bits.to_data (JsonObject [("id", JsonInt 0);
                            ("type", JsonString QUERY_REQUEST);
                            ("body", query)]).

Definition request_envelope : amqp_envelope_t :=
  {| channel := 1; consumer_tag := "ctag"; delivery_tag := 1;
     redelivered := false; exchange := "amq.direct"; routing_key := "test";
     message := {| properties := send_properties "amq.gen-1";
                   body := request_text |} |}.

(** The request is delivered; a NUL byte happens to lie right behind
    the buffers of its body and of its reply-to. *)
Definition request_delivery : delivery :=
  {| consumed := Recorder.normal_reply;
     envelope := request_envelope;
     behind_body := String Ascii.zero EmptyString;
     behind_reply_to := String Ascii.zero EmptyString;
     reply_to_dup := true;
     published := 0 |}.

(** A handler that fills in a body and then reports a failure. *)
Definition failing : handler :=
  fun _ response => (false, set_body_node response alice).

(** The broker accepts everything and delivers the request. *)
Definition serving : listen_script :=
  {| queue_reply := Recorder.normal_reply;
     queuename_copied := true;
     bind_reply := Recorder.normal_reply;
     consumer_reply := Recorder.normal_reply;
     deliveries := [request_delivery] |}.



(** A session in which the third wait for a frame fails. *)
Definition broken_wait : list wait_result :=
  [(0, heartbeat_frame); (0, deliver_frame 1); (-9, heartbeat_frame);
   (0, header_frame 1 2 (reply_properties "1")); (0, body_frame 1 "{}")].

End RpcScenario.

(* ===================================================================== *)
(** * utils.cpp: the hex dump *)
(* ===================================================================== *)

Module Dump.

(** The buffer as [unsigned char *buf] reads it. *)
Fixpoint bytes (s : string) : list Z :=
  match s with
  | EmptyString => []
  | String c rest => Z.of_N (N_of_ascii c) :: bytes rest
  end.

Definition hex_digit (n : Z) : ascii :=
  match n with
  | 0 => "0" | 1 => "1" | 2 => "2" | 3 => "3" | 4 => "4" | 5 => "5"
  | 6 => "6" | 7 => "7" | 8 => "8" | 9 => "9" | 10 => "A" | 11 => "B"
  | 12 => "C" | 13 => "D" | 14 => "E" | _ => "F"
  end%char.

(** The last [width] hexadecimal digits of [n]. *)
Fixpoint hex_fixed (width : nat) (n : Z) : string :=
  match width with
  | O => EmptyString
  | S w => hex_fixed w (n / 16) +:+ String (hex_digit (n mod 16)) EmptyString
  end.

(** The number of hexadecimal digits of [n]. *)
Definition hex_width (n : Z) : nat :=
  if n <=? 0 then 1%nat else Z.to_nat (Z.log2 n / 4 + 1).

(** [printf("%08lX", n)]: the [long] is taken as [unsigned long]. *)
Definition printf_08lX (n : Z) : string :=
  let u := n mod 2 ^ 64 in hex_fixed (Nat.max 8 (hex_width u)) u.

(** [printf("%02X", n)]: the [int] is taken as [unsigned]. *)
Definition printf_02X (n : Z) : string :=
  let u := n mod 2 ^ 32 in hex_fixed (Nat.max 2 (hex_width u)) u.

(** [isprint] in the "C" locale. *)
Definition isprint (ch : Z) : bool := (32 <=? ch) && (ch <=? 126).

(** [printf("%c", ch)] *)
Definition printf_c (ch : Z) : string :=
  String (ascii_of_N (Z.to_N (ch mod 256))) EmptyString.

Definition newline : string := String (ascii_of_nat 10) EmptyString.

(** [chs[i]] of an [int chs[16]]. *)
Definition at_index (chs : list Z) (i : nat) : Z := nth i chs 0.

(** [static void dump_row(long count, int numinrow, int *chs)], as the
    text it prints. *)
Definition dump_row (count numinrow : Z) (chs : list Z) : string :=
  printf_08lX (count - numinrow) +:+ ":"
  +:+ (if 0 <? numinrow then
         foldr (fun i acc =>
                  (if (i =? 8)%nat then " :" else "")
                  +:+ " " +:+ printf_02X (at_index chs i) +:+ acc)
               "" (seq 0 (Z.to_nat numinrow))
         +:+ foldr (fun i acc =>
                      (if (i =? 8)%nat then " :" else "") +:+ "   " +:+ acc)
                   "" (seq (Z.to_nat numinrow) (16 - Z.to_nat numinrow))
         +:+ "  "
         +:+ foldr (fun i acc =>
                      (if isprint (at_index chs i)
                       then printf_c (at_index chs i) else ".") +:+ acc)
                   "" (seq 0 (Z.to_nat numinrow))
       else "")
  +:+ newline.

(** [static int rows_eq(int *a, int *b)] *)
Definition rows_eq (a b : list Z) : bool :=
  forallb (fun i => at_index a i =? at_index b i) (seq 0 16).

(** What [amqp_dump] prints, piece by piece: a call of [dump_row], the
    line of dots, the closing offset. *)
Inductive printed :=
| P_row (count numinrow : Z) (chs : list Z)
| P_dots
| P_end (count : Z).

Definition dots_line : string :=
  "          .. .. .. .. .. .. .. .. : .. .. .. .. .. .. .. .." +:+ newline.

Definition render (p : printed) : string :=
  match p with
  | P_row count numinrow chs => dump_row count numinrow chs
  | P_dots => dots_line
  | P_end count => printf_08lX count +:+ ":" +:+ newline
  end.

(** The locals of [amqp_dump], and what was printed so far. *)
Record locals := {
  count : Z;
  numinrow : Z;
  chs : list Z;
  oldchs : list Z;
  showed_dots : bool;
  out : list printed
}.

(** The block [if (numinrow == 16) { ... }]. *)
Definition full_row (s : locals) : locals :=
  let same := rows_eq (oldchs s) (chs s) in
  {| count := count s;
     numinrow := 0;
     chs := chs s;
     oldchs := chs s;
     showed_dots := same;
     out := if same
            then (if showed_dots s then out s else out s ++ [P_dots])
            else out s ++ [P_row (count s) (numinrow s) (chs s)] |}.

(** One turn of the [for] loop, on the byte [ch]. *)
Definition turn (s : locals) (ch : Z) : locals :=
  let s := if numinrow s =? 16 then full_row s else s in
  {| count := count s + 1;
     numinrow := numinrow s + 1;
     chs := <[Z.to_nat (numinrow s) := ch]> (chs s);
     oldchs := oldchs s;
     showed_dots := showed_dots s;
     out := out s |}.

(** The locals at the start; [garbage] is what the uninitialised [chs]
    happens to hold. *)
Definition start (garbage : list Z) : locals :=
  {| count := 0; numinrow := 0; chs := garbage; oldchs := replicate 16 0;
     showed_dots := false; out := [] |}.

(** After the loop: the last row, and the closing offset. *)
Definition finish (s : locals) : list printed :=
  out s ++ [P_row (count s) (numinrow s) (chs s)]
  ++ (if numinrow s =? 0 then [] else [P_end (count s)]).

(** [void amqp_dump(void const *buffer, size_t len)] *)
Definition amqp_dump (garbage : list Z) (buffer : string) : list printed :=
  finish (fold_left turn (bytes buffer) (start garbage)).

(** The text on the standard output. *)
Definition amqp_dump_text (garbage : list Z) (buffer : string) : string :=
  foldr (fun p acc => render p +:+ acc) "" (amqp_dump garbage buffer).

(** ** What the dump is measured against *)

Definition zeros : list Z := replicate 16 0.

(** The sixteen bytes of [p] that end at offset [c]. *)
Definition row_at (p : list Z) (c : Z) : list Z :=
  take 16 (drop (Z.to_nat (c - 16)) p).

(** The row a full row ending at [c] is compared with: the row before
    it, or sixteen zeros for the first one. *)
Definition before (p : list Z) (c : Z) : list Z :=
  if c =? 16 then zeros else row_at p (c - 16).

(** The number of bytes in the last row of a dump of [len] bytes. *)
Definition last_row_len (len : Z) : Z :=
  if len =? 0 then 0 else (len - 1) mod 16 + 1.

Definition is_dots (e : printed) : bool :=
  match e with P_dots => true | _ => false end.

(** Two lines of dots in a row. *)
Fixpoint adjacent_dots (l : list printed) : bool :=
  match l with
  | [] => false
  | e :: rest =>
      (is_dots e && match rest with e' :: _ => is_dots e' | [] => false end)
      || adjacent_dots rest
  end.

(** The locals after the bytes [p]: the counters, the part of [chs]
    written in the current row, and the row kept in [oldchs]. *)
Definition shape (p : list Z) (s : locals) : Prop :=
  count s = Z.of_nat (length p)
  /\ 0 <= numinrow s <= 16
  /\ numinrow s <= count s
  /\ (count s - numinrow s) mod 16 = 0
  /\ (numinrow s = 0 -> count s = 0)
  /\ length (chs s) = 16%nat
  /\ take (Z.to_nat (numinrow s)) (chs s)
     = drop (Z.to_nat (count s - numinrow s)) p
  /\ oldchs s = (if count s - numinrow s =? 0 then zeros
                 else row_at p (count s - numinrow s)).

(** A piece printed inside the loop: a full row that differs from the
    row before it, or the dots. *)
Definition printed_ok (p : list Z) (e : printed) : Prop :=
  match e with
  | P_row c n a =>
      n = 16 /\ 16 <= c <= Z.of_nat (length p) /\ c mod 16 = 0
      /\ a = row_at p c /\ a <> before p c
  | P_dots => True
  | P_end _ => False
  end.

(** What was printed after the bytes [p]: only such pieces, and every
    full row that differs from the row before it. *)
Definition printed_so_far (p : list Z) (s : locals) : Prop :=
  Forall (printed_ok p) (out s)
  /\ (forall c, 16 <= c <= count s - numinrow s -> c mod 16 = 0 ->
                row_at p c <> before p c ->
                P_row c 16 (row_at p c) ∈ out s).

(** The flag [showed_dots] is set whenever the dots were printed last. *)
Definition dots_once (s : locals) : Prop :=
  adjacent_dots (out s) = false
  /\ (match last (out s) with Some P_dots => True | _ => False end ->
      showed_dots s = true).

(** Two runs on the same bytes, started on different garbage: they
    agree on everything but the part of [chs] not yet written. *)
Definition alike (s1 s2 : locals) : Prop :=
  count s1 = count s2
  /\ numinrow s1 = numinrow s2
  /\ 0 <= numinrow s1 <= 16
  /\ length (chs s1) = 16%nat
  /\ length (chs s2) = 16%nat
  /\ take (Z.to_nat (numinrow s1)) (chs s1)
     = take (Z.to_nat (numinrow s1)) (chs s2)
  /\ oldchs s1 = oldchs s2
  /\ showed_dots s1 = showed_dots s2
  /\ out s1 = out s2.

End Dump.

(* ===================================================================== *)
(** * common.cpp: the connection, queues and publishing *)
(* ===================================================================== *)

Module Setup.
Import Amqp Utils Common.
Local Open Scope common_scope.

(** The other calls of common.cpp into the library.  Parameter positions
    are those of the library's prototypes:
    [amqp_queue_declare (state, channel, queue, passive, durable,
    exclusive, auto_delete, arguments)] returns the pointer to the
    declare-ok method, here the queue name it holds or [None] for
    [NULL]; [amqp_socket_open] and [amqp_basic_publish] return a status. *)
Class Wire (St : Type) := {
  amqp_new_connection : St;
  amqp_tcp_socket_new : St -> St * bool;
  amqp_socket_open : St -> string -> Z -> St * Z;
  amqp_login : St -> string -> Z -> Z -> Z -> string -> string ->
               St * amqp_rpc_reply_t;
  amqp_queue_declare : St -> Z -> amqp_bytes_t -> bool -> bool -> bool ->
                       bool -> St * option amqp_bytes_t;
  amqp_queue_bind : St -> Z -> amqp_bytes_t -> amqp_bytes_t ->
                    amqp_bytes_t -> St;
  amqp_basic_publish : St -> Z -> amqp_bytes_t -> amqp_bytes_t -> bool ->
                       bool -> amqp_basic_properties_t -> amqp_bytes_t ->
                       St * Z
}.

(** [class Message]: the properties and the body [Channel::publish]
    hands to the library. *)
Definition Message : Type := amqp_message_t.

Definition host_required : string := "host is not specified, it is required".
Definition vhost_required : string := "vhost is not specified, it is required".
Definition port_invalid : string :=
  "port is not valid, it must be a positive number".

(** [empty() ? amqp_empty_bytes : amqp_cstring_bytes(c_str())] *)
Definition bytes_of (s : string) : amqp_bytes_t :=
  if decide (s = "") then amqp_empty_bytes else amqp_cstring_bytes s.

Section Operations.
Context {St : Type} `{Transport St} `{Wire St}.

(** What the constructor does with the library, up to the login. *)
Definition log_in (host : string) (port : Z) (user password vhost : string)
    (frame_max : Z) : result St :=
  let state := amqp_new_connection in
  let '(state, socket) := amqp_tcp_socket_new state in
  if negb socket then die "creating TCP socket"
  else
    let '(state, status) := amqp_socket_open state host port in
    if negb (status =? 0) then die "opening TCP socket"
    else
      let '(state, reply) :=
        amqp_login state vhost 0 frame_max 0 user password in
      match die_on_amqp_error reply "Logging in" with
      | Throw e => Throw e
      | Return _ => Return state
      end.

(** [Connection::Connection(host, port, user, password, vhost,
    frame_max)], for the object at [this]; the worker it starts is
    [worker].  When it throws there is no object.

    Modelled from the spec: the initial value of [run] is in common.h,
    which is missing; the dispatch loop of the spec runs from the
    construction on, so it is [true]. *)
Definition Connection_ctor (this : N) (host : string) (port : Z)
    (user password vhost : string) (frame_max : Z) : M St unit :=
  if decide (host = "") then lift (Throw (err_die host_required))
  else if decide (vhost = "") then lift (Throw (err_die vhost_required))
  else if port <=? 0 then lift (Throw (err_die port_invalid))
  else
    state <- lift (log_in host port user password vhost frame_max) ;;
    set_connection this {| state := state; pool := ∅; run := true |}.

(** [std::string Channel::setup_queue(queue_name, exchange, routing_key,
    passive, durable, auto_delete, exclusive)] *)
Definition Channel_setup_queue (this : N)
    (queue_name exchange routing_key : string)
    (passive durable auto_delete exclusive : bool) : M St string :=
  ch <- deref_channel this ;;
  r <- transport (connection ch) (fun st =>
         amqp_queue_declare st (id ch) (bytes_of queue_name)
                            passive durable exclusive auto_delete) ;;
  reply <- transport (connection ch) (fun st => (st, amqp_get_rpc_reply st)) ;;
  lift (die_on_amqp_error reply "Declaring queue") ;;;
  match r with
  | None => undefined
  | Some queue =>
      (if negb (bool_decide (exchange = "")) &&
          negb (bool_decide (routing_key = ""))
       then
         transport (connection ch) (fun st =>
           (amqp_queue_bind st (id ch) queue (bytes_of exchange)
                            (bytes_of routing_key), tt)) ;;;
         reply <- transport (connection ch)
                    (fun st => (st, amqp_get_rpc_reply st)) ;;
         lift (die_on_amqp_error reply "Binding queue")
       else ret tt) ;;;
      ret queue
  end.

(** [void Channel::publish(exchange, routing_key, message, mandatory,
    immediate)] *)
Definition Channel_publish (this : N) (exchange routing_key : string)
    (message : Message) (mandatory immediate : bool) : M St unit :=
  ch <- deref_channel this ;;
  status <- transport (connection ch) (fun st =>
              amqp_basic_publish st (id ch) (bytes_of exchange)
                                 (bytes_of routing_key) mandatory immediate
                                 (properties message) (body message)) ;;
  lift (die_on_error status "Publishing").

(** Two memories that differ at most in the sessions of their
    connections: the counter, the live channels with their queues, the
    registries and the run flags are the same. *)
Definition same_objects (m m' : Memory St) : Prop :=
  serial m' = serial m
  /\ channels m' = channels m
  /\ forall conn,
       (pool <$> connections m' !! conn) = (pool <$> connections m !! conn)
       /\ (run <$> connections m' !! conn) = (run <$> connections m !! conn).

(** A member function that keeps the objects. *)
Definition keeps {A} (x : M St A) : Prop :=
  forall m, same_objects m (x m).1.

(** Every [op_new] of an execution names a connection of [m]. *)
Definition on_live_connections (ops : list operation) (m : Memory St)
  : Prop :=
  forall this conn, op_new this conn ∈ ops -> is_Some (connections m !! conn).

End Operations.

(** A broker for the recording transport: it takes every connection,
    gives an unnamed queue the name "amq.gen-1", and answers a publish
    with the status of the session. *)
#[global] Instance recorder_wire : Wire Recorder.session := {
  amqp_new_connection := Recorder.accepting [];
  amqp_tcp_socket_new s := (s, true);
  amqp_socket_open s host port := (s, 0);
  amqp_login s vhost channel_max frame_max heartbeat user password :=
    (s, Recorder.rpc_reply s);
  amqp_queue_declare s ch queue passive durable exclusive auto_delete :=
    (s, Some (if decide (queue = "") then "amq.gen-1" else queue));
  amqp_queue_bind s ch queue exchange routing_key := s;
  amqp_basic_publish s ch exchange routing_key mandatory immediate p b :=
    (s, Recorder.status s)
}.

End Setup.

(* ===================================================================== *)
(** * The exchanges of [send] and [listen], as the broker sees them *)
(* ===================================================================== *)

Module Protocol.
Import Amqp Utils Broker.

(** A content header frame. *)
Definition is_header (f : amqp_frame_t) : bool :=
  match payload f with
  | payload_properties _ _ _ => true
  | _ => false
  end.

(** The same wait with the frame on another channel. *)
Definition relabel (g : Z -> Z) (w : wait_result) : wait_result :=
  (w.1, {| frame_channel := g (frame_channel w.2); payload := payload w.2 |}).


End Protocol.

(* ===================================================================== *)
(** * Facts about common.cpp *)
(* ===================================================================== *)

Module CommonFacts.
Import Amqp Utils Common.
Local Open Scope common_scope.

Section Facts.
Context {St : Type} `{Transport St}.

Lemma bind_done {A B} (x : M St A) (k : A -> M St B) m m' a :
  x m = (m', Done a) -> bind x k m = k a m'.
Proof. intros E. unfold bind. now rewrite E. Qed.

Lemma bind_raised {A B} (x : M St A) (k : A -> M St B) m m' e :
  x m = (m', Raised e) -> bind x k m = (m', Raised e).
Proof. intros E. unfold bind. now rewrite E. Qed.

Lemma bind_undefined {A B} (x : M St A) (k : A -> M St B) m m' :
  x m = (m', Undefined) -> bind x k m = (m', Undefined).
Proof. intros E. unfold bind. now rewrite E. Qed.

Lemma deref_channel_alive this (m : Memory St) ch :
  channels m !! this = Some ch -> deref_channel this m = (m, Done ch).
Proof. intros E. unfold deref_channel. now rewrite E. Qed.

Lemma deref_connection_alive conn (m : Memory St) c :
  connections m !! conn = Some c -> deref_connection conn m = (m, Done c).
Proof. intros E. unfold deref_connection. now rewrite E. Qed.

Lemma transport_alive {A} conn (f : St -> St * A) (m : Memory St) c :
  connections m !! conn = Some c ->
  transport conn f m = (called conn c (f (state c)).1 m, Done (f (state c)).2).
Proof.
  intros E. unfold transport.
  rewrite (bind_done _ _ _ _ _ (deref_connection_alive _ _ _ E)).
  destruct (f (state c)) as [st a]. reflexivity.
Qed.

Lemma called_connection conn c st (m : Memory St) :
  connections (called conn c st m) !! conn
  = Some {| state := st; pool := pool c; run := run c |}.
Proof. unfold called; simpl. apply lookup_insert_eq. Qed.

Lemma called_channels conn c st (m : Memory St) :
  channels (called conn c st m) = channels m.
Proof. reflexivity. Qed.

(** What [Channel::ack] comes to on a live channel. *)
Lemma Channel_ack_alive this delivery_tag multiple (m : Memory St) ch c :
  channels m !! this = Some ch ->
  connections m !! connection ch = Some c ->
  let r := amqp_basic_ack (state c) (id ch) delivery_tag multiple in
  Channel_ack this delivery_tag multiple m
  = (called (connection ch) c r.1 m,
     if r.2 <? 0 then Raised (err_status "basic.ack" r.2) else Done r.2).
Proof.
  intros Hch Hc r. unfold Channel_ack.
  rewrite (bind_done _ _ _ _ _ (deref_channel_alive _ _ _ Hch)).
  rewrite (bind_done _ _ _ _ _ (transport_alive _ _ _ _ Hc)).
  fold r. unfold die_on_error, bind, lift, ret.
  destruct (r.2 <? 0); reflexivity.
Qed.

Lemma Channel_nack_alive this delivery_tag multiple requeue
    (m : Memory St) ch c :
  channels m !! this = Some ch ->
  connections m !! connection ch = Some c ->
  let r := amqp_basic_nack (state c) (id ch) delivery_tag multiple requeue in
  Channel_nack this delivery_tag multiple requeue m
  = (called (connection ch) c r.1 m,
     if r.2 <? 0 then Raised (err_status "basic.nack" r.2) else Done r.2).
Proof.
  intros Hch Hc r. unfold Channel_nack.
  rewrite (bind_done _ _ _ _ _ (deref_channel_alive _ _ _ Hch)).
  rewrite (bind_done _ _ _ _ _ (transport_alive _ _ _ _ Hc)).
  fold r. unfold die_on_error, bind, lift, ret.
  destruct (r.2 <? 0); reflexivity.
Qed.

(** What [Channel::qos] comes to on a live channel: the library gets
    [prefetch_count] in the place of its prefetch size and the low 16
    bits of [prefetch_size] in the place of its prefetch count. *)
Lemma Channel_qos_alive this prefetch_size prefetch_count global
    (m : Memory St) ch c :
  channels m !! this = Some ch ->
  connections m !! connection ch = Some c ->
  let r := amqp_basic_qos (state c) (id ch) prefetch_count
                          (prefetch_size mod 65536) global in
  Channel_qos this prefetch_size prefetch_count global m
  = (called (connection ch) c r.1 m,
     if r.2 then Done tt
     else match die_on_amqp_error (amqp_get_rpc_reply r.1) "basic.qos" with
          | Return _ => Done tt
          | Throw e => Raised e
          end).
Proof.
  intros Hch Hc r. unfold Channel_qos.
  rewrite (bind_done _ _ _ _ _ (deref_channel_alive _ _ _ Hch)).
  rewrite (bind_done _ _ _ _ _ (transport_alive _ _ _ _ Hc)).
  fold r. destruct (r.2); simpl; [reflexivity|].
  rewrite (bind_done _ _ _ _ _
             (transport_alive _ _ _ _ (called_connection _ _ _ _))).
  simpl. unfold lift, called. simpl. rewrite insert_insert_eq.
  destruct (die_on_amqp_error _ _) as [[]|]; reflexivity.
Qed.

(** C8: [ack] and [nack] throw exactly when the library reports a
    negative status, and otherwise return that status unchanged. *)
Theorem ack_nack_raise_on_negative_status
    this delivery_tag multiple requeue (m : Memory St) ch c :
  channels m !! this = Some ch ->
  connections m !! connection ch = Some c ->
  let acked := (amqp_basic_ack (state c) (id ch) delivery_tag multiple).2 in
  let nacked :=
    (amqp_basic_nack (state c) (id ch) delivery_tag multiple requeue).2 in
  ((Channel_ack this delivery_tag multiple m).2
     = Raised (err_status "basic.ack" acked) <-> acked < 0) /\
  ((Channel_ack this delivery_tag multiple m).2 = Done acked
     <-> 0 <= acked) /\
  ((Channel_nack this delivery_tag multiple requeue m).2
     = Raised (err_status "basic.nack" nacked) <-> nacked < 0) /\
  ((Channel_nack this delivery_tag multiple requeue m).2 = Done nacked
     <-> 0 <= nacked).
Proof.
  intros Hch Hc acked nacked.
  rewrite (Channel_ack_alive _ _ _ _ _ _ Hch Hc).
  rewrite (Channel_nack_alive _ _ _ _ _ _ _ Hch Hc).
  cbn [snd]. fold acked nacked.
  repeat split; intros E;
    try (destruct (Z.ltb_spec acked 0)); try (destruct (Z.ltb_spec nacked 0));
    try lia; try reflexivity; try discriminate.
Qed.

(** ** The dispatch worker *)

Lemma worker_iteration_idle conn (m : Memory St) c :
  connections m !! conn = Some c ->
  pool c = ∅ ->
  worker_iteration conn m = (m, Done tt).
Proof.
  intros Hc Hp. unfold worker_iteration.
  rewrite (bind_done _ _ _ _ _ (deref_connection_alive _ _ _ Hc)).
  destruct (decide (pool c = ∅)); [reflexivity | contradiction].
Qed.

Lemma worker_idle turns conn (m : Memory St) c :
  connections m !! conn = Some c ->
  pool c = ∅ ->
  worker turns conn m = (m, Done tt).
Proof.
  intros Hc Hp. induction turns as [|n IH]; [reflexivity|].
  cbn [worker].
  rewrite (bind_done _ _ _ _ _ (deref_connection_alive _ _ _ Hc)).
  destruct (run c); [|reflexivity].
  rewrite (bind_done _ _ _ _ _ (worker_iteration_idle _ _ _ Hc Hp)).
  exact IH.
Qed.

Lemma worker_iteration_busy conn (m : Memory St) c :
  connections m !! conn = Some c ->
  pool c ≠ ∅ ->
  let r := amqp_consume_message (amqp_maybe_release_buffers (state c)) 100 in
  worker_iteration conn m
  = if decide (reply_type r.2.1 = AMQP_RESPONSE_NORMAL) then
      match pool c !! channel r.2.2 with
      | Some (Some target) => push_envelope target r.2.2 (polled conn c m)
      | Some None => (polled conn c m, Undefined)
      | None =>
          (called conn {| state := state c;
                          pool := <[channel r.2.2 := nullptr]> (pool c);
                          run := run c |} r.1 m, Undefined)
      end
    else (polled conn c m, Done tt).
Proof.
  intros Hc Hp r. unfold worker_iteration.
  rewrite (bind_done _ _ _ _ _ (deref_connection_alive _ _ _ Hc)).
  destruct (decide (pool c = ∅)); [contradiction|].
  rewrite (bind_done _ _ _ _ _ (transport_alive _ _ _ _ Hc)).
  cbn [fst snd].
  rewrite (bind_done _ _ _ _ _
             (transport_alive _ _ _ _ (called_connection _ _ _ _))).
  cbn [state fst snd]. fold r.
  assert (Hm : called conn {| state := amqp_maybe_release_buffers (state c);
                              pool := pool c; run := run c |} r.1
                 (called conn c (amqp_maybe_release_buffers (state c)) m)
               = polled conn c m).
  { unfold polled, called. cbn. fold r. now rewrite insert_insert_eq. }
  rewrite Hm. destruct r.2 as [res envelope] eqn:Er. cbn [fst snd].
  destruct (decide (reply_type res = AMQP_RESPONSE_NORMAL)); [|reflexivity].
  assert (Hpc : connections (polled conn c m) !! conn
                = Some {| state := r.1; pool := pool c; run := run c |})
    by apply called_connection.
  unfold pool_subscript, set_pool, set_connection, bind.
  unfold deref_connection at 1. rewrite Hpc.
  cbn [pool]. destruct (pool c !! channel envelope) as [[target|]|] eqn:El;
    try reflexivity.
  unfold deref_connection. rewrite Hpc. unfold ret, undefined.
  unfold polled, called. cbn. now rewrite insert_insert_eq.
Qed.

(** A delivery for an id that is not in the registry: the subscript
    enters the id with a null pointer, and the call goes through it. *)
Lemma worker_iteration_unregistered conn (m : Memory St) c :
  connections m !! conn = Some c ->
  pool c ≠ ∅ ->
  let r := amqp_consume_message (amqp_maybe_release_buffers (state c)) 100 in
  reply_type r.2.1 = AMQP_RESPONSE_NORMAL ->
  pool c !! channel r.2.2 = None ->
  worker_iteration conn m
  = (called conn {| state := state c;
                    pool := <[channel r.2.2 := nullptr]> (pool c);
                    run := run c |} r.1 m, Undefined).
Proof.
  intros Hc Hp r Hn Hl. rewrite (worker_iteration_busy _ _ _ Hc Hp).
  fold r. rewrite Hl. destruct (decide _); [reflexivity | contradiction].
Qed.

(** C9: when the registry is empty, a turn of the dispatch loop (and any
    number of turns) does nothing at all, so the transport is not
    touched; when it is not empty, the turn releases the buffers and
    polls, and the session is left as the poll leaves it. *)
Theorem worker_polls_only_with_registered_channels
    conn (m : Memory St) c turns :
  connections m !! conn = Some c ->
  (pool c = ∅ ->
     worker_iteration conn m = (m, Done tt)
     /\ worker turns conn m = (m, Done tt))
  /\ (pool c ≠ ∅ ->
        state <$> connections (worker_iteration conn m).1 !! conn
        = Some (amqp_consume_message
                  (amqp_maybe_release_buffers (state c)) 100).1).
Proof.
  intros Hc. split.
  - intros Hp. split;
      [exact (worker_iteration_idle _ _ _ Hc Hp)
      | exact (worker_idle _ _ _ _ Hc Hp)].
  - intros Hp. rewrite (worker_iteration_busy _ _ _ Hc Hp). cbv zeta.
    set (r := amqp_consume_message (amqp_maybe_release_buffers (state c)) 100).
    assert (Hpolled : state <$> connections (polled conn c m) !! conn
                      = Some r.1).
    { unfold polled. now rewrite called_connection. }
    destruct (decide _); [|exact Hpolled].
    destruct (pool c !! channel r.2.2) as [[target|]|]; [|exact Hpolled|].
    + unfold push_envelope, bind, deref_channel, set_channel.
      destruct (channels (polled conn c m) !! target); exact Hpolled.
    + cbn [fst]. now rewrite called_connection.
Qed.

(** [Channel::qos] throws exactly when the library call returns [NULL]
    and the reply it left behind is not a normal one. *)
Lemma Channel_qos_raises this prefetch_size prefetch_count global
    (m : Memory St) ch c :
  channels m !! this = Some ch ->
  connections m !! connection ch = Some c ->
  let r := amqp_basic_qos (state c) (id ch) prefetch_count
                          (prefetch_size mod 65536) global in
  (exists e, (Channel_qos this prefetch_size prefetch_count global m).2
             = Raised e)
  <-> r.2 = false /\ reply_type (amqp_get_rpc_reply r.1) <> AMQP_RESPONSE_NORMAL.
Proof.
  intros Hch Hc r.
  rewrite (Channel_qos_alive _ _ _ _ _ _ _ Hch Hc). cbn [snd]. fold r.
  unfold die_on_amqp_error.
  destruct r.2; destruct (reply_type (amqp_get_rpc_reply r.1));
    split; try (intros [e E]; discriminate E); try (intros [E1 E2]);
    try discriminate; try congruence; try (split; congruence); eauto.
Qed.

End Facts.

Import Recorder Scenario.

Lemma worker_polls_only_with_registered_channels_witness :
  (pool {| state := accepting []; pool := ∅; run := true |} = ∅ ->
     worker_iteration 0 (initial (accepting [])) = (initial (accepting []), Done tt)
     /\ worker 5 0 (initial (accepting [])) = (initial (accepting []), Done tt))
  /\ (pool {| state := accepting []; pool := ∅; run := true |} ≠ ∅ ->
        state <$> connections
                    (worker_iteration 0 (initial (accepting []))).1 !! 0%N
        = Some (amqp_consume_message
                  (amqp_maybe_release_buffers (accepting [])) 100).1).
Proof.
  apply (worker_polls_only_with_registered_channels
           0%N (initial (accepting []))
           {| state := accepting []; pool := ∅; run := true |} 5).
  reflexivity.
Defined.

(** C3: a delivery for channel 2 is polled while only channel 1 is
    registered.  The turn does not go on normally: [pool[2]] inserts a
    null entry for 2 into the registry, and the call through it is
    undefined behaviour. *)
Theorem unregistered_delivery_null_dereference :
  let m := consuming (accepting [envelope_on 2 "{}"]) in
  pool_of 0 m = {[1 := Some 10%N]}
  /\ (worker_iteration 0 m).2 = Undefined
  /\ pool_of 0 (worker_iteration 0 m).1 = <[2 := nullptr]> {[1 := Some 10%N]}
  /\ pool_of 0 (worker_iteration 0 m).1 ≠ pool_of 0 m.
Proof.
  cbv zeta. repeat split; try (vm_compute; reflexivity).
  vm_compute. discriminate.
Qed.

(** ** The channel ids *)

Section Ids.
Context {St : Type} `{Transport St}.

Ltac run_member :=
  unfold Channel_ctor, Channel_dtor, Channel_consume_register, transport,
    set_pool, set_connection, set_channel, delete_channel,
    pre_increment_serial, deref_connection, deref_channel, lift, bind, ret;
  cbn;
  repeat (case_match; cbn in *; simplify_eq; cbn in *).


Lemma Channel_dtor_effect this (m : Memory St) :
  let m' := (Channel_dtor this m).1 in
  serial m' = serial m
  /\ (channels m' = channels m \/ channels m' = delete this (channels m)).
Proof. run_member; auto. Qed.

Lemma Channel_consume_register_effect this q t nl na ex (m : Memory St) :
  let m' := (Channel_consume_register this q t nl na ex m).1 in
  serial m' = serial m /\ channels m' = channels m.
Proof. run_member; auto. Qed.

Lemma constructions_cons o ops :
  constructions (o :: ops) = cost o + constructions ops.
Proof.
  unfold constructions, cost. rewrite filter_cons.
  destruct (is_new o); cbn [length]; case_decide; try congruence;
    cbn [length]; lia.
Qed.














End Ids.



(** C7: [qos(prefetch_size = 0, prefetch_count = 10)] reaches the library
    as a prefetch size of 10 and a prefetch count of 0, and
    [qos(prefetch_size = 70000, prefetch_count = 1)] as a prefetch size
    of 1 and a prefetch count of 70000 - 65536: the two limits are
    forwarded in each other's place. *)
Theorem qos_swaps_prefetch_limits :
  calls_of 0 (Channel_qos 10 0 10 false (opened (accepting []))).1
  = [call_channel_open 1; call_basic_qos 1 10 0 false]
  /\ calls_of 0 (Channel_qos 10 70000 1 false (opened (accepting []))).1
     = [call_channel_open 1; call_basic_qos 1 1 4464 false].
Proof. split; vm_compute; reflexivity. Qed.

Lemma ack_nack_raise_on_negative_status_witness :
  let m := opened (answering (-9)) in
  ((Channel_ack 10 7 false m).2 = Raised (err_status "basic.ack" (-9))
     <-> -9 < 0) /\
  ((Channel_ack 10 7 false m).2 = Done (-9) <-> 0 <= -9) /\
  ((Channel_nack 10 7 false true m).2 = Raised (err_status "basic.nack" (-9))
     <-> -9 < 0) /\
  ((Channel_nack 10 7 false true m).2 = Done (-9) <-> 0 <= -9).
Proof.
  cbv zeta.
  refine (ack_nack_raise_on_negative_status
            10%N 7 false true (opened (answering (-9)))
            {| id := 1; connection := 0%N; envelopes := [] |}
            {| state := log (call_channel_open 1) (answering (-9));
               pool := ∅; run := true |} _ _);
    vm_compute; reflexivity.
Defined.

(** A refused [qos] throws, with the reply of the broker as the cause. *)
Lemma qos_refused_raises :
  let refused :=
    {| serial := 1;
       connections :=
         {[0%N := {| state := close_channel (accepting []); pool := ∅;
                     run := true |}]};
       channels := {[10%N := {| id := 1; connection := 0%N;
                                envelopes := [] |}]} |} in
  (Channel_qos 10 0 10 false refused).2
  = Raised (err_reply "basic.qos" channel_closed_reply).
Proof. vm_compute. reflexivity. Qed.

(** A delivery for a registered channel lands at the back of its queue. *)
Lemma registered_delivery_is_queued :
  let m := consuming (accepting [envelope_on 1 "first"; envelope_on 1 "second"]) in
  worker 2 0 m = ((worker 2 0 m).1, Done tt)
  /\ queue_of 10 (worker 2 0 m).1
     = [envelope_on 1 "first"; envelope_on 1 "second"]
  /\ pool_of 0 (worker 2 0 m).1 = pool_of 0 m.
Proof. repeat split; vm_compute; reflexivity. Qed.

End CommonFacts.

(* ===================================================================== *)
(** * Facts about the RPC broker *)
(* ===================================================================== *)

Module BrokerFacts.
Import Amqp Utils Broker.

(** ** [Response::ok] *)

Lemma ok_false_iff (r : Gs.Response) :
  Gs.ok r = false <-> Gs.type (Gs.properties r) = Some Gs.MESSAGE_TYPE_ERROR.
Proof.
  unfold Gs.ok, Gs.optional_ne. destruct (Gs.type (Gs.properties r)) as [t|].
  - destruct (String.eqb_spec t Gs.MESSAGE_TYPE_ERROR) as [-> | Hne]; cbn.
    + split; reflexivity.
    + split; [discriminate | intros [= E]; contradiction].
  - split; discriminate.
Qed.

(** C10: a response whose properties carry no type tag is [ok()], just
    as one whose type tag is "response" or any other tag but "error"; so
    [ok()] does not tell an untyped reply from an explicit success. *)
Theorem untyped_response_is_ok (text : string) (p : Gs.AmqpProperties) :
  let untyped := {| Gs.body := text; Gs.properties := Gs.with_type None p |} in
  let typed t :=
    {| Gs.body := text; Gs.properties := Gs.with_type (Some t) p |} in
  Gs.ok untyped = true
  /\ Gs.ok untyped = Gs.ok (typed Gs.MESSAGE_TYPE_RESPONSE)
  /\ (forall t, Gs.ok (typed t) = Gs.ok untyped <-> t <> Gs.MESSAGE_TYPE_ERROR).
Proof.
  cbv zeta. split; [reflexivity|]. split; [reflexivity|].
  intros t. unfold Gs.ok, Gs.optional_ne. cbn.
  destruct (String.eqb_spec t Gs.MESSAGE_TYPE_ERROR) as [-> | Hne]; cbn.
  - split; [discriminate | intros E; now contradiction E].
  - split; [intros _; exact Hne | reflexivity].
Qed.

(** ** The wait for the reply in [send] *)

Lemma fragment_len_nonneg s : 0 <= fragment_len s.
Proof. unfold fragment_len. lia. Qed.


Lemma total_len_cons w parts :
  total_len (w :: parts) = fragment_len (fragment_of w.2) + total_len parts.
Proof. reflexivity. Qed.

Lemma total_len_nonneg parts : 0 <= total_len parts.
Proof.
  induction parts as [|w parts IH]; [cbn; lia|]. rewrite total_len_cons.
  pose proof (fragment_len_nonneg (fragment_of w.2)). lia.
Qed.


(** Frames that are skipped do not change the outcome. *)
Lemma wait_reply_skip pre inbound :
  forallb skipped pre = true ->
  wait_reply (pre ++ inbound) = wait_reply inbound.
Proof.
  induction pre as [|[r f] pre IH]; [reflexivity|].
  cbn [forallb app wait_reply]. unfold skipped at 1, is_deliver. cbn [fst snd].
  intros Hs. apply andb_prop in Hs as [Hs Hpre].
  apply andb_prop in Hs as [Hr Hd].
  apply Z.leb_le in Hr. destruct (Z.ltb_spec r 0); [lia|].
  destruct (payload f) as [m| | |]; auto.
  destruct (decide (method_id m = AMQP_BASIC_DELIVER_METHOD)) as [E|E]; auto.
  rewrite bool_decide_eq_true_2 in Hd by exact E. discriminate.
Qed.



(** While only frames that are skipped arrive, [send] waits on. *)
Lemma wait_reply_keeps_waiting pre :
  forallb skipped pre = true -> wait_reply pre = Blocked.
Proof.
  intros Hs. rewrite <- (app_nil_r pre). now rewrite wait_reply_skip.
Qed.

(** A failing wait in the body loop leaves the count short. *)
Lemma body_loop_fails target : forall pre received frame r f rest,
  body_loop target received frame pre = BodyBlocked ->
  r < 0 ->
  exists received' frame',
    body_loop target received frame (pre ++ (r, f) :: rest)
    = Exited received' frame'
    /\ received' < target.
Proof.
  induction pre as [|[r0 f0] pre IH]; intros received frame r f rest Hb Hr.
  - cbn in *. destruct (Z.ltb_spec received target); [|discriminate].
    destruct (Z.ltb_spec r 0); [|lia]. eauto.
  - cbn [app body_loop] in *.
    destruct (Z.ltb_spec received target); [|discriminate].
    destruct (Z.ltb_spec r0 0); [discriminate|].
    destruct (payload f0); try discriminate.
    destruct (Z.leb_spec ((received + fragment_len fragment) mod 2 ^ 64)
                         target); [|discriminate].
    now apply IH.
Qed.

Lemma after_body_blocked p target b :
  after_body p target b = Blocked -> b = BodyBlocked.
Proof.
  destruct b as [received frame| |]; cbn; try discriminate; [|reflexivity].
  destruct (decide _); [|discriminate].
  destruct (payload frame); try discriminate. destruct (has_nul _); discriminate.
Qed.

Lemma after_deliver_fails pre r f rest :
  after_deliver pre = Blocked -> r < 0 ->
  after_deliver (pre ++ (r, f) :: rest) = NoReply.
Proof.
  intros Hb Hr. destruct pre as [|[r0 f0] pre]; cbn [app after_deliver] in *.
  - destruct (Z.ltb_spec r 0); [reflexivity | lia].
  - destruct (Z.ltb_spec r0 0); [discriminate|].
    destruct (payload f0) as [|class_id body_size p| |]; try discriminate.
    apply after_body_blocked in Hb.
    destruct (body_loop_fails _ _ _ _ r f rest Hb Hr)
      as (received' & frame' & -> & Hlt).
    cbn. destruct (decide _); [lia | reflexivity].
Qed.

Lemma wait_reply_cons r f rest :
  0 <= r ->
  wait_reply ((r, f) :: rest)
  = if is_deliver f then after_deliver rest else wait_reply rest.
Proof.
  intros Hr. cbn [wait_reply]. destruct (Z.ltb_spec r 0); [lia|].
  unfold is_deliver. destruct (payload f) as [m| | |]; try reflexivity.
  destruct (decide (method_id m = AMQP_BASIC_DELIVER_METHOD)) as [E|E].
  - now rewrite bool_decide_eq_true_2.
  - now rewrite bool_decide_eq_false_2.
Qed.

Lemma wait_reply_fails : forall pre r f rest,
  wait_reply pre = Blocked -> r < 0 ->
  wait_reply (pre ++ (r, f) :: rest) = NoReply.
Proof.
  induction pre as [|[r0 f0] pre IH]; intros r f rest Hb Hr.
  - cbn. destruct (Z.ltb_spec r 0); [reflexivity | lia].
  - destruct (Z.ltb_spec r0 0) as [Hr0|Hr0].
    + cbn in Hb. destruct (Z.ltb_spec r0 0); [discriminate | lia].
    + cbn [app]. rewrite wait_reply_cons in * by assumption.
      destruct (is_deliver f0); auto using after_deliver_fails.
Qed.

(** ** The text codec of [Bits] *)

Lemma c_str_no_nul s : has_nul s = false -> c_str s = s.
Proof.
  induction s as [|c s IH]; [reflexivity|]. cbn.
  destruct (decide (c = Ascii.zero)); [discriminate|].
  intros Hs. now rewrite IH.
Qed.

Lemma pos_of_bits_of_pos p : Bits.pos_of_bits (Bits.bits_of_pos p) = p.
Proof. induction p as [q IH|q IH|]; cbn; now rewrite ?IH. Qed.

Lemma bits_no_nul p : has_nul (Bits.bits_of_pos p) = false.
Proof.
  induction p as [q IH|q IH|]; cbn; [| |reflexivity];
    destruct (decide _); try discriminate; exact IH.
Qed.

(** Induction on documents, with the elements of an array and the
    members of an object as lists. *)
Lemma JsonNode_members_ind (P : JsonNode -> Prop) :
  P JsonNull ->
  (forall z, P (JsonInt z)) ->
  (forall m e, P (JsonDouble m e)) ->
  (forall s, P (JsonString s)) ->
  (forall b, P (JsonBoolean b)) ->
  (forall elements, Forall P elements -> P (JsonArray elements)) ->
  (forall members, Forall (fun kv => P (snd kv)) members ->
                   P (JsonObject members)) ->
  forall j, P j.
Proof.
  intros Hnull Hint Hdbl Hstr Hbool Harr Hobj.
  fix IH 1. intros [|z|m e|s|b|elements|members];
    [apply Hnull | apply Hint | apply Hdbl | apply Hstr | apply Hbool
    | apply Harr | apply Hobj].
  - induction elements as [|v elements IHe]; constructor;
      [apply IH | exact IHe].
  - induction members as [|[k v] members IHm]; constructor;
      [apply IH | exact IHm].
Qed.

Lemma of_tree_to_tree j : Bits.of_tree (Bits.to_tree j) = j.
Proof.
  induction j as [|z|m e|s|b|elements IH|members IH]
    using JsonNode_members_ind; try reflexivity.
  - cbn. f_equal. rewrite map_map.
    induction IH as [|v elements Hv _ IHe]; [reflexivity|].
    cbn in *. now rewrite Hv, IHe.
  - cbn. f_equal. rewrite map_map.
    induction IH as [|[k v] members Hv _ IHm]; [reflexivity|].
    cbn in *. now rewrite Hv, IHm.
Qed.

Lemma load_to_data j : Bits.load_from_data (Bits.to_data j) = Some j.
Proof.
  unfold Bits.load_from_data, Bits.to_data.
  rewrite pos_of_bits_of_pos, decode_encode. cbn.
  now rewrite of_tree_to_tree.
Qed.

Lemma to_data_no_nul j : has_nul (Bits.to_data j) = false.
Proof. apply bits_no_nul. Qed.

(** ** [send] *)

Lemma die_on_amqp_error_returns x context :
  die_on_amqp_error x context = Return tt
  <-> reply_type x = AMQP_RESPONSE_NORMAL.
Proof.
  unfold die_on_amqp_error. destruct (reply_type x); split;
    congruence || reflexivity.
Qed.

Lemma die_on_error_returns x context :
  die_on_error x context = Return tt <-> 0 <= x.
Proof.
  unfold die_on_error. destruct (Z.ltb_spec x 0); split;
    try discriminate; try lia; reflexivity.
Qed.


(** While body frames come and the count stays short, the body loop
    waits for more. *)
Lemma body_loop_waits target : forall parts received frame,
  forallb is_body parts = true ->
  0 <= received ->
  received + total_len parts < target ->
  target < 2 ^ 64 ->
  body_loop target received frame parts = BodyBlocked.
Proof.
  induction parts as [|[r f] parts IH]; intros received frame Hb Hr Hlt H64.
  - cbn in *. destruct (Z.ltb_spec received target); [reflexivity | lia].
  - cbn [forallb] in Hb. apply andb_prop in Hb as [Hb0 Hb].
    rewrite total_len_cons in Hlt. cbn [fst snd] in *.
    pose proof (total_len_nonneg parts).
    unfold is_body in Hb0. cbn [fst snd] in Hb0.
    apply andb_prop in Hb0 as [Hr0 Hf0]. apply Z.leb_le in Hr0.
    cbn [body_loop]. unfold fragment_of in Hlt.
    destruct (payload f) as [| |fragment|]; try discriminate.
    pose proof (fragment_len_nonneg fragment).
    destruct (Z.ltb_spec received target); [|lia].
    destruct (Z.ltb_spec r 0); [lia|].
    rewrite Z.mod_small by lia.
    destruct (Z.leb_spec (received + fragment_len fragment) target); [|lia].
    apply IH; try assumption; lia.
Qed.




Section Rpc.
Variable load : string -> option JsonNode.
Variable to_data : JsonNode -> string.

Lemma send_after_setup exchange routingkey message s :
  set_up load to_data exchange routingkey message s ->
  send load to_data exchange routingkey message s
  = respond load (wait_reply (frames s)).
Proof.
  intros ([pub Hpub] & Hd & Hq & Hr & Hp & Hc). unfold send. rewrite Hpub.
  rewrite (proj2 (die_on_amqp_error_returns _ _) Hd), Hq, Hr.
  cbn [negb].
  rewrite (proj2 (die_on_error_returns _ _) Hp).
  now rewrite (proj2 (die_on_amqp_error_returns _ _) Hc).
Qed.

(** C2, as amended: [send] takes no timeout.  Once it is set up, a
    wait for a frame that fails (negative result) makes it return the
    empty result, wherever in the delivery the wait fails; while only
    frames come that it skips, and while the body frames of a delivery
    stay short of the announced size, it is blocked in the wait for the
    next frame. *)
Theorem failed_wait_gives_the_empty_result
    exchange routingkey message s :
  set_up load to_data exchange routingkey message s ->
  (forall pre r f rest,
     frames s = pre ++ (r, f) :: rest -> r < 0 -> wait_reply pre = Blocked ->
     send load to_data exchange routingkey message s = Returned None)
  /\ (forallb skipped (frames s) = true ->
      send load to_data exchange routingkey message s = SendBlocked)
  /\ (forall pre r1 f1 r2 f2 class_id body_size p parts,
        frames s = pre ++ (r1, f1) :: (r2, f2) :: parts ->
        forallb skipped pre = true ->
        0 <= r1 -> is_deliver f1 = true -> 0 <= r2 ->
        payload f2 = payload_properties class_id body_size p ->
        forallb is_body parts = true ->
        total_len parts < body_size mod 2 ^ 64 ->
        send load to_data exchange routingkey message s = SendBlocked).
Proof.
  intros Hup. rewrite (send_after_setup _ _ _ _ Hup). split; [|split].
  - intros pre r f rest Hf Hr Hb. rewrite Hf.
    exact (f_equal (respond load) (wait_reply_fails pre r f rest Hb Hr)).
  - intros Hs.
    exact (f_equal (respond load) (wait_reply_keeps_waiting _ Hs)).
  - intros pre r1 f1 r2 f2 class_id body_size p parts
           Hf Hpre Hr1 Hd Hr2 Ep Hb Hlt.
    assert (Hw : wait_reply (pre ++ (r1, f1) :: (r2, f2) :: parts)
                 = Blocked).
    { rewrite wait_reply_skip by assumption.
      rewrite wait_reply_cons by assumption. rewrite Hd.
      cbn [after_deliver]. destruct (Z.ltb_spec r2 0); [lia|]. rewrite Ep.
      assert (body_size mod 2 ^ 64 < 2 ^ 64)
        by (apply Z.mod_pos_bound; lia).
      rewrite body_loop_waits; try assumption; try lia. reflexivity. }
    rewrite Hf. exact (f_equal (respond load) Hw).
Qed.


End Rpc.

Import RpcScenario.

Lemma failed_wait_gives_the_empty_result_witness :
  send Bits.load_from_data Bits.to_data "amq.direct" "test" query_text
       (session broken_wait)
  = Returned None.
Proof.
  refine (proj1 (failed_wait_gives_the_empty_result
                   Bits.load_from_data Bits.to_data "amq.direct" "test"
                   query_text (session broken_wait) _)
                [(0, heartbeat_frame); (0, deliver_frame 1)]
                (-9) heartbeat_frame
                [(0, header_frame 1 2 (reply_properties "1"));
                 (0, body_frame 1 "{}")] _ _ _).
  - split; [eexists; vm_compute; reflexivity|].
    split; [reflexivity|]. split; [reflexivity|]. split; [reflexivity|].
    split; [vm_compute; discriminate | reflexivity].
  - reflexivity.
  - lia.
  - reflexivity.
Defined.



(** C2, the counterexample: no reply comes, only heartbeats; when they
    are used up [send] has not returned the empty result: it is still
    inside [amqp_simple_wait_frame]. *)
Lemma send_blocks_while_no_reply_comes :
  send Bits.load_from_data Bits.to_data "amq.direct" "test" query_text
       (session (replicate 3 (0, heartbeat_frame)))
  = SendBlocked.
Proof. vm_compute. reflexivity. Qed.

(** C4: a reply of nine bytes comes in two body frames, "[1,2," and
    "3,4]".  The text handed to the constructor of [Response] is the
    second fragment, not the body. *)
Theorem split_reply_keeps_last_fragment :
  total_len (drop 2 split_delivery) = 9
  /\ assembled (drop 2 split_delivery) = "[1,2,3,4]"
  /\ wait_reply split_delivery = Reply (reply_properties "1") "3,4]"
  /\ wait_reply split_delivery
     <> Reply (reply_properties "1") (assembled (drop 2 split_delivery)).
Proof.
  split; [reflexivity|]. split; [reflexivity|].
  split; [reflexivity|]. vm_compute. discriminate.
Qed.

(** ** [listen] *)

(** C6: the request of the repository's example is delivered to
    [listen], with a handler that fills in a body and reports a
    failure.  No reply with the error tag is published: the constructor
    of the request calls [set_type], which flows off the end of a
    function declared [bool], and forcing the error tag calls it again;
    both are undefined behaviour, for every text, response, handler and
    delivery. *)
Theorem handler_failure_is_undefined :
  listen_reply Bits.load_from_data Bits.to_data failing request_delivery
  = None
  /\ listen Bits.load_from_data Bits.to_data failing serving
     = ([], Listen_undefined)
  /\ (forall load text, QueryInterface_ctor load text = None)
  /\ (forall response, set_type response (Some QUERY_ERROR) = None)
  /\ (forall load to_data callback d,
        listen_reply load to_data callback d = None).
Proof.
  split; [vm_compute; reflexivity|]. split; [vm_compute; reflexivity|].
  split; [reflexivity|]. split; [reflexivity|].
  intros load to_data callback d. unfold listen_reply.
  destruct (read_c_string _ _); reflexivity.
Qed.

End BrokerFacts.

(* ===================================================================== *)
(** * Facts about the hex dump of utils.cpp *)
(* ===================================================================== *)

Module DumpFacts.
Import Dump.

Lemma at_index_take n (a : list Z) i :
  (i < n)%nat -> at_index (take n a) i = at_index a i.
Proof.
  unfold at_index. revert a i. induction n as [|n IH]; intros a i Hi; [lia|].
  destruct a as [|x a]; [now destruct i|]. destruct i as [|i]; [reflexivity|].
  cbn. apply IH. lia.
Qed.

Lemma at_index_agree n (a b : list Z) i :
  take n a = take n b -> (i < n)%nat -> at_index a i = at_index b i.
Proof.
  intros E Hi. rewrite <- (at_index_take n a), <- (at_index_take n b) by lia.
  now rewrite E.
Qed.

Lemma foldr_agree (f g : nat -> string -> string) l :
  (forall i acc, i ∈ l -> f i acc = g i acc) ->
  foldr f EmptyString l = foldr g EmptyString l.
Proof.
  induction l as [|i l IH]; intros E; [reflexivity|]. cbn.
  rewrite IH by (intros; apply E; now right). apply E. now left.
Qed.

(** [dump_row] reads the first [numinrow] elements of [chs] only. *)
Lemma dump_row_agree c n (a b : list Z) :
  take (Z.to_nat n) a = take (Z.to_nat n) b ->
  dump_row c n a = dump_row c n b.
Proof.
  intros E. unfold dump_row. destruct (0 <? n); [|reflexivity].
  do 3 f_equal.
  rewrite (foldr_agree _
    (fun i acc => (if (i =? 8)%nat then " :" else "")
                  +:+ " " +:+ printf_02X (at_index b i) +:+ acc)).
  2:{ intros i acc Hi. apply elem_of_seq in Hi.
      rewrite (at_index_agree _ _ _ _ E) by lia. reflexivity. }
  do 3 f_equal.
  apply foldr_agree. intros i acc Hi. apply elem_of_seq in Hi.
  rewrite (at_index_agree _ _ _ _ E) by lia. reflexivity.
Qed.

Lemma rows_eq_true (a b : list Z) :
  length a = 16%nat -> length b = 16%nat ->
  rows_eq a b = true <-> a = b.
Proof.
  intros La Lb. unfold rows_eq. rewrite forallb_forall. split.
  - intros E. apply (nth_ext _ _ 0 0); [congruence|].
    intros i Hi. apply Z.eqb_eq. apply E. apply in_seq. lia.
  - intros -> i _. apply Z.eqb_refl.
Qed.

Lemma bytes_length s : length (bytes s) = String.length s.
Proof. induction s as [|c s IH]; cbn; congruence. Qed.

Lemma row_at_app p r c :
  16 <= c <= Z.of_nat (length p) -> row_at (p ++ r) c = row_at p c.
Proof.
  intros Hc. unfold row_at.
  rewrite drop_app_le by lia. apply take_app_le. rewrite length_drop. lia.
Qed.

Lemma before_app p r c :
  16 <= c <= Z.of_nat (length p) -> c mod 16 = 0 ->
  before (p ++ r) c = before p c.
Proof.
  intros Hc Hm. unfold before. destruct (Z.eqb_spec c 16); [reflexivity|].
  apply row_at_app. apply Z.mod_divide in Hm; [|lia].
  destruct Hm as [q ->]. lia.
Qed.

Lemma printed_ok_app p r e : printed_ok p e -> printed_ok (p ++ r) e.
Proof.
  destruct e as [c n a| |]; cbn; auto.
  intros (Hn & Hc & Hm & Ha & Hne). rewrite length_app.
  rewrite row_at_app, before_app by lia. repeat split; auto; lia.
Qed.

Lemma shape_start g : length g = 16%nat -> shape [] (start g).
Proof.
  intros Hg. unfold shape, start. cbn. repeat split; auto; lia.
Qed.

(** A turn of the loop keeps the shape. *)
Lemma shape_turn p s ch : shape p s -> shape (p ++ [ch]) (turn s ch).
Proof.
  intros (Hc & Hr & Hle & Hm & Hz & Hl & Hrow & Hold).
  unfold shape, turn. destruct (Z.eqb_spec (numinrow s) 16) as [E|E].
  - unfold full_row. cbn. rewrite E in *.
    assert (Hcm : count s mod 16 = 0).
    { replace (count s) with (count s - 16 + 1 * 16) by lia.
      now rewrite Z.mod_add by lia. }
    rewrite length_app, length_insert. cbn [length].
    replace (count s + 1 - (0 + 1)) with (count s) by lia.
    replace (Z.to_nat (0 + 1)) with 1%nat by lia.
    replace (Z.to_nat 0) with 0%nat by lia.
    assert (Hfull : chs s = drop (Z.to_nat (count s - 16)) p).
    { rewrite <- Hrow. symmetry. apply take_ge. lia. }
    split; [lia|]. split; [lia|]. split; [lia|]. split; [assumption|].
    split; [lia|]. split; [assumption|]. split.
    + destruct (chs s) as [|x l]; [discriminate|]. cbn.
      rewrite drop_app_length'; [reflexivity | lia].
    + destruct (Z.eqb_spec (count s) 0); [lia|].
      unfold row_at. rewrite drop_app_le by lia. rewrite <- Hfull.
      rewrite take_app_le by lia. symmetry. apply take_ge. lia.
  - cbn. rewrite length_app, length_insert. cbn [length].
    replace (count s + 1 - (numinrow s + 1)) with (count s - numinrow s) by lia.
    split; [lia|]. split; [lia|]. split; [lia|]. split; [assumption|].
    split; [lia|]. split; [assumption|]. split.
    + replace (Z.to_nat (numinrow s + 1)) with (S (Z.to_nat (numinrow s)))
        by lia.
      rewrite (take_S_r _ _ ch)
        by (apply list_lookup_insert_eq; lia).
      rewrite take_insert_ge by lia. rewrite Hrow.
      now rewrite drop_app_le by lia.
    + rewrite Hold. destruct (Z.eqb_spec (count s - numinrow s) 0);
        [reflexivity|].
      symmetry. apply row_at_app.
      apply Z.mod_divide in Hm; [|lia]. destruct Hm as [q Hq]. lia.
Qed.

Lemma shape_loop buf : forall p s,
  shape p s -> shape (p ++ buf) (fold_left turn buf s).
Proof.
  induction buf as [|ch buf IH]; intros p s Hs; cbn.
  - now rewrite app_nil_r.
  - replace (p ++ ch :: buf) with ((p ++ [ch]) ++ buf)
      by (now rewrite <- app_assoc).
    apply IH. now apply shape_turn.
Qed.

Lemma row_at_length p c :
  16 <= c <= Z.of_nat (length p) -> length (row_at p c) = 16%nat.
Proof. intros Hc. unfold row_at. rewrite length_take, length_drop. lia. Qed.

Lemma before_length p c :
  16 <= c <= Z.of_nat (length p) -> c mod 16 = 0 ->
  length (before p c) = 16%nat.
Proof.
  intros Hc Hm. unfold before. destruct (Z.eqb_spec c 16); [reflexivity|].
  apply row_at_length. apply Z.mod_divide in Hm; [|lia].
  destruct Hm as [q ->]. lia.
Qed.

(** At a full row, [chs] is the row and [oldchs] the row before it. *)
Lemma shape_full p s :
  shape p s -> numinrow s = 16 ->
  16 <= count s <= Z.of_nat (length p) /\ count s mod 16 = 0
  /\ chs s = row_at p (count s) /\ oldchs s = before p (count s).
Proof.
  intros (Hc & Hr & Hle & Hm & Hz & Hl & Hrow & Hold) E. rewrite E in *.
  assert (Hcm : count s mod 16 = 0).
  { replace (count s) with (count s - 16 + 1 * 16) by lia.
    now rewrite Z.mod_add by lia. }
  split; [lia|]. split; [assumption|]. split.
  - unfold row_at. rewrite <- Hrow.
    rewrite (take_ge (chs s)) by lia. symmetry. apply take_ge. lia.
  - rewrite Hold. unfold before.
    destruct (Z.eqb_spec (count s - 16) 0), (Z.eqb_spec (count s) 16);
      try lia; reflexivity.
Qed.

Ltac fields := cbn [count numinrow chs oldchs showed_dots out].

Lemma printed_so_far_start g : printed_so_far [] (start g).
Proof. split; [constructor|]. cbn. intros c Hc. lia. Qed.

Lemma printed_so_far_turn p s ch :
  shape p s -> printed_so_far p s ->
  printed_so_far (p ++ [ch]) (turn s ch).
Proof.
  intros Hs [Hok Hall].
  assert (Hok' : Forall (printed_ok (p ++ [ch])) (out s)).
  { eapply Forall_impl; [exact Hok|]. intros e. apply printed_ok_app. }
  pose proof Hs as (Hc & Hr & Hle & Hm & Hz & Hl & Hrow & Hold).
  unfold printed_so_far, turn.
  destruct (Z.eqb_spec (numinrow s) 16) as [E|E].
  - destruct (shape_full _ _ Hs E) as (Hcount & Hcm & Hchs & Holdc).
    assert (Hlo : length (oldchs s) = 16%nat)
      by (rewrite Holdc; now apply before_length).
    unfold full_row. fields.
    replace (count s + 1 - (0 + 1)) with (count s) by lia.
    destruct (rows_eq (oldchs s) (chs s)) eqn:Eq.
    + apply rows_eq_true in Eq; [|assumption..]. split.
      * destruct (showed_dots s); [assumption|].
        apply Forall_app. split; [assumption|]. now repeat constructor.
      * intros c Hcr Hcm' Hne.
        assert (Hin : P_row c 16 (row_at (p ++ [ch]) c) ∈ out s).
        { destruct (Z.eq_dec c (count s)) as [->|Hd].
          - rewrite row_at_app, before_app in Hne by lia. congruence.
          - assert (c <= count s - 16).
            { apply Z.mod_divide in Hcm, Hcm'; try lia.
              destruct Hcm as [q Hq], Hcm' as [q' Hq']. lia. }
            rewrite row_at_app, before_app in * by lia.
            apply Hall; [rewrite E; lia | assumption..]. }
        destruct (showed_dots s); [assumption|].
        apply elem_of_app. now left.
    + assert (Hne : oldchs s <> chs s).
      { intros Heq. apply rows_eq_true in Heq; [congruence | assumption..]. }
      split.
      * apply Forall_app. split; [assumption|]. constructor; [|constructor].
        cbn. rewrite length_app. cbn [length].
        rewrite row_at_app, before_app by lia.
        repeat split; try lia; try assumption. congruence.
      * intros c Hcr Hcm' Hne'. apply elem_of_app.
        destruct (Z.eq_dec c (count s)) as [->|Hd].
        -- right. rewrite row_at_app by lia. rewrite <- Hchs, E.
           apply list_elem_of_singleton. reflexivity.
        -- left. assert (c <= count s - 16).
           { apply Z.mod_divide in Hcm, Hcm'; try lia.
             destruct Hcm as [q Hq], Hcm' as [q' Hq']. lia. }
           rewrite row_at_app, before_app in * by lia.
           apply Hall; [rewrite E; lia | assumption..].
  - fields. split; [assumption|].
    replace (count s + 1 - (numinrow s + 1)) with (count s - numinrow s) by lia.
    intros c Hcr Hcm' Hne.
    rewrite row_at_app, before_app in * by lia. now apply Hall.
Qed.

Lemma dump_invariants buf : forall p s,
  shape p s -> printed_so_far p s ->
  shape (p ++ buf) (fold_left turn buf s)
  /\ printed_so_far (p ++ buf) (fold_left turn buf s).
Proof.
  induction buf as [|ch buf IH]; intros p s Hs Hp; cbn.
  - now rewrite app_nil_r.
  - replace (p ++ ch :: buf) with ((p ++ [ch]) ++ buf)
      by (now rewrite <- app_assoc).
    apply IH; [now apply shape_turn | now apply printed_so_far_turn].
Qed.

(** ** The dots *)

Lemma adjacent_dots_snoc l e :
  adjacent_dots (l ++ [e])
  = adjacent_dots l
    || (is_dots e && match last l with Some e' => is_dots e' | None => false end).
Proof.
  induction l as [|x l IH]; [cbn; now destruct (is_dots e)|].
  cbn [app adjacent_dots]. rewrite IH.
  destruct l as [|y l].
  - cbn. destruct (is_dots x), (is_dots e); reflexivity.
  - cbn [app last]. change (last (x :: y :: l)) with (last (y :: l)).
    destruct (is_dots x), (is_dots y), (adjacent_dots (y :: l)); cbn;
      try reflexivity.
Qed.

Lemma dots_once_turn s ch : dots_once s -> dots_once (turn s ch).
Proof.
  intros [Hadj Hlast]. unfold dots_once, turn.
  destruct (numinrow s =? 16); [|fields; auto].
  unfold full_row. fields. destruct (rows_eq (oldchs s) (chs s)).
  - destruct (showed_dots s) eqn:Es; [auto|]. split; [|reflexivity].
    rewrite adjacent_dots_snoc, Hadj. cbn.
    destruct (last (out s)) as [[| |]|]; try reflexivity.
    discriminate (Hlast I).
  - split.
    + rewrite adjacent_dots_snoc, Hadj. reflexivity.
    + rewrite last_snoc. intros [].
Qed.

Lemma dots_once_loop buf : forall s,
  dots_once s -> dots_once (fold_left turn buf s).
Proof.
  induction buf as [|ch buf IH]; intros s Hs; cbn; [assumption|].
  apply IH. now apply dots_once_turn.
Qed.

(** ** Uninitialised memory *)

Lemma alike_turn s1 s2 ch : alike s1 s2 -> alike (turn s1 ch) (turn s2 ch).
Proof.
  intros (Hc & Hn & Hr & L1 & L2 & Ht & Ho & Hd & Hout).
  unfold alike, turn. rewrite <- Hn.
  destruct (Z.eqb_spec (numinrow s1) 16) as [E|E].
  - assert (Hchs : chs s1 = chs s2).
    { rewrite E in Ht. rewrite !take_ge in Ht by lia. exact Ht. }
    unfold full_row. fields. rewrite <- Hchs, <- Ho, <- Hd, <- Hout, <- Hc, <- Hn.
    rewrite !length_insert. repeat split; auto; lia.
  - fields. rewrite <- ?Hn. rewrite !length_insert.
    replace (Z.to_nat (numinrow s1 + 1)) with (S (Z.to_nat (numinrow s1)))
      by lia.
    rewrite !(take_S_r _ _ ch) by (apply list_lookup_insert_eq; lia).
    rewrite !take_insert_ge by lia. rewrite Ht.
    repeat split; auto; lia.
Qed.

Lemma alike_loop buf : forall s1 s2,
  alike s1 s2 -> alike (fold_left turn buf s1) (fold_left turn buf s2).
Proof.
  induction buf as [|ch buf IH]; intros s1 s2 Hs; cbn; [assumption|].
  apply IH. now apply alike_turn.
Qed.

(** ** The dump of a buffer *)

Lemma dump_end garbage buffer :
  length garbage = 16%nat ->
  let s := fold_left turn (bytes buffer) (start garbage) in
  shape (bytes buffer) s /\ printed_so_far (bytes buffer) s.
Proof.
  intros Hg.
  apply (dump_invariants (bytes buffer) [] (start garbage));
    [now apply shape_start | apply printed_so_far_start].
Qed.

Lemma shape_last_row p s :
  shape p s -> numinrow s = last_row_len (count s).
Proof.
  intros (Hc & Hr & Hle & Hm & Hz & _). unfold last_row_len.
  destruct (Z.eqb_spec (count s) 0) as [E|E]; [lia|].
  assert (1 <= numinrow s) by lia.
  apply Z.mod_divide in Hm; [|lia]. destruct Hm as [q Hq].
  replace (count s - 1) with (numinrow s - 1 + q * 16) by lia.
  rewrite Z.mod_add by lia. rewrite Z.mod_small by lia. lia.
Qed.

Lemma string_app_assoc (a b c : string) : (a +:+ b) +:+ c = a +:+ (b +:+ c).
Proof.
  induction a as [|x a IH]; [reflexivity|].
  change (String x ((a +:+ b) +:+ c) = String x (a +:+ (b +:+ c))).
  now rewrite IH.
Qed.

Lemma render_all_app l1 l2 :
  foldr (fun p acc => render p +:+ acc) EmptyString (l1 ++ l2)
  = foldr (fun p acc => render p +:+ acc) EmptyString l1
    +:+ foldr (fun p acc => render p +:+ acc) EmptyString l2.
Proof.
  induction l1 as [|e l1 IH]; [reflexivity|]. cbn [app foldr]. rewrite IH.
  now rewrite string_app_assoc.
Qed.

(** X1: the text [amqp_dump] prints does not depend on what the
    uninitialised array [chs] holds at the start: no element of it is
    read before it is written. *)
Theorem dump_never_reads_uninitialised garbage1 garbage2 buffer :
  length garbage1 = 16%nat ->
  length garbage2 = 16%nat ->
  amqp_dump_text garbage1 buffer = amqp_dump_text garbage2 buffer.
Proof.
  intros H1 H2. unfold amqp_dump_text, amqp_dump, finish.
  assert (Hs : alike (start garbage1) (start garbage2)).
  { unfold alike, start. cbn. repeat split; auto; lia. }
  apply (alike_loop (bytes buffer)) in Hs.
  destruct Hs as (Hc & Hn & Hr & L1 & L2 & Ht & Ho & Hd & Hout).
  rewrite !render_all_app. rewrite <- Hout, <- Hc, <- Hn. f_equal.
  cbn [foldr render]. now rewrite (dump_row_agree _ _ _ _ Ht).
Qed.

Lemma dump_never_reads_uninitialised_witness :
  amqp_dump_text (replicate 16 7) "the first row..|the second row.|rest"
  = amqp_dump_text (replicate 16 (-1)) "the first row..|the second row.|rest".
Proof.
  apply (dump_never_reads_uninitialised
           (replicate 16 7) (replicate 16 (-1))
           "the first row..|the second row.|rest"); reflexivity.
Defined.

(** X2: every row [amqp_dump] prints shows bytes of the buffer: a row
    printed with the counters [count] and [numinrow] holds the
    [numinrow] bytes that start at the offset [count - numinrow], an
    offset that is a multiple of 16 inside the buffer. *)
Theorem dump_rows_show_the_buffer garbage buffer c n a :
  length garbage = 16%nat ->
  P_row c n a ∈ amqp_dump garbage buffer ->
  0 <= n <= 16
  /\ n <= c <= Z.of_nat (String.length buffer)
  /\ (c - n) mod 16 = 0
  /\ take (Z.to_nat n) a
     = take (Z.to_nat n) (drop (Z.to_nat (c - n)) (bytes buffer)).
Proof.
  intros Hg Hin. destruct (dump_end garbage buffer Hg) as [Hs [Hok _]].
  cbv zeta in *. unfold amqp_dump, finish in Hin.
  set (s := fold_left turn (bytes buffer) (start garbage)) in *.
  rewrite <- bytes_length.
  apply elem_of_app in Hin as [Hin | Hin].
  - rewrite Forall_forall in Hok. specialize (Hok _ Hin). cbn in Hok.
    destruct Hok as (-> & Hc & Hm & -> & _).
    split; [lia|]. split; [lia|]. split.
    + replace (c - 16) with (c + (-1) * 16) by lia. now rewrite Z.mod_add by lia.
    + unfold row_at. replace (Z.to_nat 16) with 16%nat by lia.
      now rewrite take_take, Nat.min_id.
  - apply elem_of_cons in Hin as [Hin | Hin].
    + injection Hin as -> -> ->.
      destruct Hs as (Hc & Hr & Hle & Hm & Hz & Hl & Hrow & Hold).
      split; [assumption|]. split; [lia|]. split; [assumption|].
      rewrite Hrow. symmetry. apply take_ge. rewrite length_drop. lia.
    + destruct (numinrow s =? 0); [now apply elem_of_nil in Hin|].
      apply list_elem_of_singleton in Hin. discriminate.
Qed.

Lemma dump_rows_show_the_buffer_witness :
  0 <= 4 <= 16
  /\ 4 <= 20 <= Z.of_nat (String.length "sixteen bytes...tail")
  /\ (20 - 4) mod 16 = 0
  /\ take (Z.to_nat 4) (bytes "taileen bytes...")
     = take (Z.to_nat 4)
            (drop (Z.to_nat (20 - 4)) (bytes "sixteen bytes...tail")).
Proof.
  apply (dump_rows_show_the_buffer
           (replicate 16 0) "sixteen bytes...tail" 20 4
           (bytes "taileen bytes...")).
  - reflexivity.
  - apply list_elem_of_In. vm_compute. right. left. reflexivity.
Defined.

(** X3: a dump always ends with its last row, printed whatever the row
    before it was, and - unless the buffer is empty - the line of the
    closing offset; the last row holds the last [(len - 1) mod 16 + 1]
    bytes of the buffer (none for an empty buffer), and what is printed
    before it is full rows and lines of dots only. *)
Theorem dump_ends_with_the_last_row garbage buffer :
  length garbage = 16%nat ->
  let len := Z.of_nat (String.length buffer) in
  exists body a,
    amqp_dump garbage buffer
    = body ++ P_row len (last_row_len len) a
           :: (if len =? 0 then [] else [P_end len])
    /\ Forall (printed_ok (bytes buffer)) body
    /\ take (Z.to_nat (last_row_len len)) a
       = drop (Z.to_nat (len - last_row_len len)) (bytes buffer).
Proof.
  intros Hg len. destruct (dump_end garbage buffer Hg) as [Hs [Hok _]].
  cbv zeta in *. unfold amqp_dump, finish.
  set (s := fold_left turn (bytes buffer) (start garbage)) in *.
  pose proof (shape_last_row _ _ Hs) as Hn.
  destruct Hs as (Hc & Hr & Hle & Hm & Hz & Hl & Hrow & Hold).
  rewrite bytes_length in Hc. fold len in Hc. rewrite Hc in *.
  exists (out s), (chs s). rewrite <- Hn, <- Hc.
  split; [|split; [assumption|]].
  - f_equal. cbn [app]. f_equal.
    destruct (Z.eqb_spec (numinrow s) 0), (Z.eqb_spec (count s) 0);
      try reflexivity; lia.
  - rewrite Hc. exact Hrow.
Qed.

Lemma dump_ends_with_the_last_row_witness :
  exists body a,
    amqp_dump (replicate 16 0) "sixteen bytes...tail"
    = body ++ P_row 20 (last_row_len 20) a :: (if 20 =? 0 then [] else [P_end 20])
    /\ Forall (printed_ok (bytes "sixteen bytes...tail")) body
    /\ take (Z.to_nat (last_row_len 20)) a
       = drop (Z.to_nat (20 - last_row_len 20)) (bytes "sixteen bytes...tail").
Proof.
  apply (dump_ends_with_the_last_row (replicate 16 0) "sixteen bytes...tail").
  reflexivity.
Defined.

(** X4: [amqp_dump] never prints the line of dots twice in a row,
    however many equal rows follow each other. *)
Theorem dump_never_repeats_the_dots garbage buffer :
  adjacent_dots (amqp_dump garbage buffer) = false.
Proof.
  unfold amqp_dump, finish.
  assert (Hd : dots_once (start garbage)) by (split; [reflexivity | intros []]).
  apply (dots_once_loop (bytes buffer)) in Hd. destruct Hd as [Hadj _].
  set (s := fold_left turn (bytes buffer) (start garbage)) in *.
  destruct (numinrow s =? 0); cbn [app].
  - rewrite adjacent_dots_snoc, Hadj. reflexivity.
  - replace (out s ++ [P_row (count s) (numinrow s) (chs s); P_end (count s)])
      with ((out s ++ [P_row (count s) (numinrow s) (chs s)])
            ++ [P_end (count s)])
      by (now rewrite <- app_assoc).
    rewrite !adjacent_dots_snoc, Hadj. reflexivity.
Qed.

(** X5: before its last row, [amqp_dump] prints the full row that ends
    at the offset [c] exactly when that row differs from the row before
    it - for the first row, from sixteen zero bytes.  A row that repeats
    the one before it is left out (the dots stand for it), and so is a
    first row of zeros. *)
Theorem dump_elides_repeated_rows garbage buffer c :
  length garbage = 16%nat ->
  16 <= c < Z.of_nat (String.length buffer) ->
  c mod 16 = 0 ->
  P_row c 16 (row_at (bytes buffer) c) ∈ amqp_dump garbage buffer
  <-> row_at (bytes buffer) c <> before (bytes buffer) c.
Proof.
  intros Hg Hc Hm. destruct (dump_end garbage buffer Hg) as [Hs [Hok Hall]].
  cbv zeta in *. unfold amqp_dump, finish.
  set (s := fold_left turn (bytes buffer) (start garbage)) in *.
  destruct Hs as (Hcount & Hr & Hle & Hmod & Hz & _).
  rewrite bytes_length in Hcount. split.
  - intros Hin. apply elem_of_app in Hin as [Hin | Hin].
    + rewrite Forall_forall in Hok. specialize (Hok _ Hin). cbn in Hok.
      now destruct Hok as (_ & _ & _ & _ & Hne).
    + apply elem_of_cons in Hin as [Hin | Hin].
      * injection Hin as E _ _. lia.
      * destruct (numinrow s =? 0); [now apply elem_of_nil in Hin|].
        apply list_elem_of_singleton in Hin. discriminate.
  - intros Hne. apply elem_of_app. left. apply Hall; try assumption.
    apply Z.mod_divide in Hm, Hmod; try lia.
    destruct Hm as [q Hq], Hmod as [q' Hq']. lia.
Qed.

Lemma dump_elides_repeated_rows_witness :
  P_row 32 16 (row_at (bytes "0123456789abcdef0123456789abcdefxyz") 32)
    ∈ amqp_dump (replicate 16 0) "0123456789abcdef0123456789abcdefxyz"
  <-> row_at (bytes "0123456789abcdef0123456789abcdefxyz") 32
      <> before (bytes "0123456789abcdef0123456789abcdefxyz") 32.
Proof.
  apply (dump_elides_repeated_rows
           (replicate 16 0) "0123456789abcdef0123456789abcdefxyz" 32).
  - reflexivity.
  - vm_compute. split; [discriminate | reflexivity].
  - reflexivity.
Defined.

End DumpFacts.

(* ===================================================================== *)
(** * Facts about the connection, the queues and the registry *)
(* ===================================================================== *)

Module SetupFacts.
Import Amqp Utils Common Setup.
Local Open Scope common_scope.

Section Facts.
Context {St : Type} `{Transport St} `{Wire St}.

(** ** Member functions that keep the objects *)

Lemma same_objects_refl (m : Memory St) : same_objects m m.
Proof. repeat split. Qed.

Lemma same_objects_trans (m1 m2 m3 : Memory St) :
  same_objects m1 m2 -> same_objects m2 m3 -> same_objects m1 m3.
Proof.
  intros (S1 & C1 & P1) (S2 & C2 & P2). split; [congruence|].
  split; [congruence|]. intros conn.
  destruct (P1 conn) as [Pa Ra], (P2 conn) as [Pb Rb]. split; congruence.
Qed.

Lemma keeps_ret {A} (a : A) : keeps (St:=St) (ret a).
Proof. intros m. apply same_objects_refl. Qed.

Lemma keeps_lift {A} (r : result A) : keeps (St:=St) (lift r).
Proof. intros m. destruct r; apply same_objects_refl. Qed.

Lemma keeps_undefined {A} : keeps (St:=St) (undefined (A:=A)).
Proof. intros m. apply same_objects_refl. Qed.

Lemma keeps_deref_channel this : keeps (St:=St) (deref_channel this).
Proof.
  intros m. unfold deref_channel.
  destruct (channels m !! this); apply same_objects_refl.
Qed.

Lemma keeps_bind {A B} (x : M St A) (k : A -> M St B) :
  keeps x -> (forall a, keeps (k a)) -> keeps (bind x k).
Proof.
  intros Hx Hk m. unfold bind. specialize (Hx m).
  destruct (x m) as [m' [a|e|]]; cbn in *; try assumption.
  eapply same_objects_trans; [exact Hx | apply Hk].
Qed.

Lemma keeps_transport {A} conn (f : St -> St * A) : keeps (transport conn f).
Proof.
  intros m. unfold transport, bind, deref_connection, set_connection, ret.
  destruct (connections m !! conn) as [c|] eqn:Ec; [|apply same_objects_refl].
  destruct (f (state c)) as [st a]. unfold same_objects.
  cbn [fst serial connections channels].
  split; [reflexivity|]. split; [reflexivity|]. intros conn'.
  destruct (decide (conn = conn')) as [<-|Hne].
  - rewrite lookup_insert_eq, Ec. split; reflexivity.
  - rewrite lookup_insert_ne by assumption. split; reflexivity.
Qed.

Ltac keep :=
  repeat (intros;
          match goal with
          | |- keeps (bind _ _) => apply keeps_bind
          | |- keeps (ret _) => apply keeps_ret
          | |- keeps (lift _) => apply keeps_lift
          | |- keeps undefined => apply keeps_undefined
          | |- keeps (deref_channel _) => apply keeps_deref_channel
          | |- keeps (transport _ _) => apply keeps_transport
          | |- keeps (if ?b then _ else _) => destruct b
          | |- keeps (match ?r with _ => _ end) => destruct r
          end).

(** What [Channel::publish] comes to on a live channel. *)
Lemma Channel_publish_alive this exchange routing_key (message : Message)
    mandatory immediate (m : Memory St) ch c :
  channels m !! this = Some ch ->
  connections m !! connection ch = Some c ->
  let r := amqp_basic_publish (state c) (id ch) (bytes_of exchange)
                              (bytes_of routing_key) mandatory immediate
                              (properties message) (body message) in
  Channel_publish this exchange routing_key message mandatory immediate m
  = (called (connection ch) c r.1 m,
     if r.2 <? 0 then Raised (err_status "Publishing" r.2) else Done tt).
Proof.
  intros Hch Hc r. unfold Channel_publish.
  rewrite (CommonFacts.bind_done _ _ _ _ _
             (CommonFacts.deref_channel_alive _ _ _ Hch)).
  rewrite (CommonFacts.bind_done _ _ _ _ _
             (CommonFacts.transport_alive _ _ _ _ Hc)).
  fold r. unfold die_on_error, lift.
  destruct (r.2 <? 0); reflexivity.
Qed.

(** X8: on a live channel of a live connection, publishing, qos, ack
    and nack are defined - they return or throw - and they, and a
    declaration of a queue that is defined, touch nothing but the
    session: whatever the broker answers, and also when they throw, the
    counter of ids, the live channels with their queues, the registry
    of every connection and its run flag are as before. *)
Theorem channel_calls_keep_the_objects
    this queue_name exchange routing_key passive durable auto_delete
    exclusive (message : Message) mandatory immediate
    prefetch_size prefetch_count global delivery_tag multiple requeue
    (m : Memory St) ch c :
  channels m !! this = Some ch ->
  connections m !! connection ch = Some c ->
  let declared := Channel_setup_queue this queue_name exchange routing_key
                    passive durable auto_delete exclusive m in
  let published := Channel_publish this exchange routing_key message
                     mandatory immediate m in
  let limited := Channel_qos this prefetch_size prefetch_count global m in
  let acked := Channel_ack this delivery_tag multiple m in
  let nacked := Channel_nack this delivery_tag multiple requeue m in
  (declared.2 <> Undefined -> same_objects m declared.1)
  /\ (published.2 <> Undefined /\ same_objects m published.1)
  /\ (limited.2 <> Undefined /\ same_objects m limited.1)
  /\ (acked.2 <> Undefined /\ same_objects m acked.1)
  /\ (nacked.2 <> Undefined /\ same_objects m nacked.1).
Proof.
  intros Hch Hc. cbv zeta. split; [|split; [|split; [|split]]].
  - intros _. revert m Hch Hc.
    change (forall m, channels m !! this = Some ch ->
                      connections m !! connection ch = Some c ->
                      same_objects m
                        (Channel_setup_queue this queue_name exchange
                           routing_key passive durable auto_delete
                           exclusive m).1).
    intros m _ _. revert m.
    change (keeps (Channel_setup_queue this queue_name exchange
                     routing_key passive durable auto_delete exclusive)).
    unfold Channel_setup_queue. keep.
  - split.
    + rewrite (Channel_publish_alive _ _ _ _ _ _ _ _ _ Hch Hc). cbn [snd].
      destruct (_ <? 0); discriminate.
    + clear Hch Hc. revert m.
      change (keeps (Channel_publish this exchange routing_key
                       message mandatory immediate)).
      unfold Channel_publish. keep.
  - split.
    + rewrite (CommonFacts.Channel_qos_alive _ _ _ _ _ _ _ Hch Hc).
      cbn [snd]. destruct (_.2); [discriminate|].
      destruct (die_on_amqp_error _ _) as [[]|]; discriminate.
    + clear Hch Hc. revert m.
      change (keeps (Channel_qos this prefetch_size prefetch_count global)).
      unfold Channel_qos. keep.
  - split.
    + rewrite (CommonFacts.Channel_ack_alive _ _ _ _ _ _ Hch Hc). cbn [snd].
      destruct (_ <? 0); discriminate.
    + clear Hch Hc. revert m.
      change (keeps (Channel_ack this delivery_tag multiple)).
      unfold Channel_ack. keep.
  - split.
    + rewrite (CommonFacts.Channel_nack_alive _ _ _ _ _ _ _ Hch Hc).
      cbn [snd]. destruct (_ <? 0); discriminate.
    + clear Hch Hc. revert m.
      change (keeps (Channel_nack this delivery_tag multiple requeue)).
      unfold Channel_nack. keep.
Qed.

(** ** The constructor of [Connection] *)

Lemma log_in_returns host port user password vhost frame_max :
  let socket := amqp_tcp_socket_new amqp_new_connection in
  let opened := amqp_socket_open socket.1 host port in
  let login := amqp_login opened.1 vhost 0 frame_max 0 user password in
  (exists st, log_in host port user password vhost frame_max = Return st)
  <-> socket.2 = true /\ opened.2 = 0
      /\ reply_type login.2 = AMQP_RESPONSE_NORMAL.
Proof.
  cbv zeta. unfold log_in, die, die_on_amqp_error.
  destruct (amqp_tcp_socket_new amqp_new_connection) as [s1 [|]]; cbn [fst snd negb].
  2:{ split; [intros [st E]; discriminate | intros (E & _); discriminate]. }
  destruct (amqp_socket_open s1 host port) as [s2 status]. cbn [fst snd].
  destruct (Z.eqb_spec status 0) as [->|Hs]; cbn [negb].
  2:{ split; [intros [st E]; discriminate | intros (_ & E & _); contradiction]. }
  destruct (amqp_login s2 vhost 0 frame_max 0 user password) as [s3 reply].
  cbn [fst snd]. destruct (reply_type reply); split;
    try (intros [st E]; discriminate); try (intros (_ & _ & E); discriminate);
    eauto.
Qed.

(** X6: the constructor of [Connection] checks its parameters before it
    touches the library, the host first, then the vhost, then the port;
    with an empty host, an empty vhost or a port that is not positive it
    throws and leaves the memory as it was.  With valid parameters it
    gives a connection - with an empty registry - exactly when the
    socket is created, [amqp_socket_open] returns 0 and the login is
    answered normally; otherwise it throws and there is no object. *)
Theorem Connection_ctor_checks_parameters
    this host port user password vhost frame_max (m : Memory St) :
  let r := Connection_ctor this host port user password vhost frame_max m in
  let socket := amqp_tcp_socket_new amqp_new_connection in
  let opened := amqp_socket_open socket.1 host port in
  let login := amqp_login opened.1 vhost 0 frame_max 0 user password in
  (host = "" -> r = (m, Raised (err_die host_required)))
  /\ (host <> "" -> vhost = "" -> r = (m, Raised (err_die vhost_required)))
  /\ (host <> "" -> vhost <> "" -> port <= 0 ->
      r = (m, Raised (err_die port_invalid)))
  /\ (host <> "" -> vhost <> "" -> 0 < port ->
      (r.2 = Done tt
       <-> socket.2 = true /\ opened.2 = 0
           /\ reply_type login.2 = AMQP_RESPONSE_NORMAL)
      /\ (r.2 = Done tt ->
          pool <$> connections r.1 !! this = Some ∅
          /\ state <$> connections r.1 !! this = Some login.1)
      /\ (r.2 <> Done tt -> r.1 = m)).
Proof.
  cbv zeta. unfold Connection_ctor.
  split; [intros ->; reflexivity|].
  split; [intros Hh ->; destruct (decide (host = "")); easy|].
  split.
  { intros Hh Hv Hp. destruct (decide (host = "")); [easy|].
    destruct (decide (vhost = "")); [easy|].
    destruct (Z.leb_spec port 0); [reflexivity | lia]. }
  intros Hh Hv Hp. destruct (decide (host = "")); [easy|].
  destruct (decide (vhost = "")); [easy|].
  destruct (Z.leb_spec port 0); [lia|].
  pose proof (log_in_returns host port user password vhost frame_max) as Hl.
  cbv zeta in Hl. unfold bind, lift, set_connection.
  destruct (log_in host port user password vhost frame_max) as [st|e] eqn:El;
    cbn [fst snd].
  - split; [split; [intros _; apply Hl; eauto | reflexivity]|].
    split; [|congruence]. intros _. cbn [connections].
    rewrite lookup_insert_eq. cbn. split; [reflexivity|]. f_equal.
    revert El. unfold log_in, die.
    destruct (amqp_tcp_socket_new amqp_new_connection) as [s1 [|]];
      cbn [fst snd negb]; [|discriminate].
    destruct (amqp_socket_open s1 host port) as [s2 status]. cbn [fst snd].
    destruct (negb (status =? 0)); [discriminate|].
    destruct (amqp_login s2 vhost 0 frame_max 0 user password) as [s3 reply].
    cbn [fst snd]. destruct (die_on_amqp_error reply "Logging in");
      congruence.
  - split; [split; [discriminate|]|split; [discriminate | reflexivity]].
    intros Hok. apply Hl in Hok as [st E]. discriminate.
Qed.

(** ** Queues *)

Ltac run_call :=
  unfold transport, bind, deref_channel, deref_connection, set_connection,
    lift, ret, undefined, called;
  cbn [fst snd serial connections channels state pool run];
  rewrite ?lookup_insert_eq, ?insert_insert_eq;
  cbn [fst snd serial connections channels state pool run].

Lemma Channel_setup_queue_alive
    this queue_name exchange routing_key passive durable auto_delete
    exclusive (m : Memory St) ch c :
  channels m !! this = Some ch ->
  connections m !! connection ch = Some c ->
  let declared :=
    amqp_queue_declare (state c) (id ch) (bytes_of queue_name)
                       passive durable exclusive auto_delete in
  let bound name :=
    amqp_queue_bind declared.1 (id ch) name (bytes_of exchange)
                    (bytes_of routing_key) in
  Channel_setup_queue this queue_name exchange routing_key
                      passive durable auto_delete exclusive m
  = match die_on_amqp_error (amqp_get_rpc_reply declared.1)
                            "Declaring queue" with
    | Throw e => (called (connection ch) c declared.1 m, Raised e)
    | Return _ =>
        match declared.2 with
        | None => (called (connection ch) c declared.1 m, Undefined)
        | Some name =>
            if negb (bool_decide (exchange = "")) &&
               negb (bool_decide (routing_key = ""))
            then (called (connection ch) c (bound name) m,
                  match die_on_amqp_error (amqp_get_rpc_reply (bound name))
                                          "Binding queue" with
                  | Return _ => Done name
                  | Throw e => Raised e
                  end)
            else (called (connection ch) c declared.1 m, Done name)
        end
    end.
Proof.
  intros Hch Hc. cbv zeta. unfold Channel_setup_queue.
  unfold bind at 1. unfold deref_channel at 1. rewrite Hch.
  unfold bind at 1. unfold transport at 1. unfold bind at 1.
  unfold deref_connection at 1. rewrite Hc.
  destruct (amqp_queue_declare (state c) (id ch) (bytes_of queue_name)
              passive durable exclusive auto_delete) as [st1 name'] eqn:Ed.
  cbn [fst snd]. run_call.
  destruct (die_on_amqp_error (amqp_get_rpc_reply st1) "Declaring queue")
    as [[]|e]; [|now rewrite ?insert_insert_eq].
  destruct name' as [name|]; [|now rewrite ?insert_insert_eq].
  destruct (negb (bool_decide (exchange = "")) &&
            negb (bool_decide (routing_key = ""))).
  - run_call. run_call.
    destruct (die_on_amqp_error _ "Binding queue") as [[]|e'];
      now rewrite ?insert_insert_eq.
  - run_call. now rewrite ?insert_insert_eq.
Qed.

(** X7: [setup_queue] on a live channel.  When the declaration is
    refused it throws and no binding is attempted.  Otherwise it
    returns the name the broker gave the queue; it binds that name, not
    the one it was called with, and only when both the exchange and the
    routing key are given; a refused binding throws. *)
Theorem setup_queue_binds_the_declared_queue
    this queue_name exchange routing_key passive durable auto_delete
    exclusive (m : Memory St) ch c :
  channels m !! this = Some ch ->
  connections m !! connection ch = Some c ->
  let declared :=
    amqp_queue_declare (state c) (id ch) (bytes_of queue_name)
                       passive durable exclusive auto_delete in
  let bound name :=
    amqp_queue_bind declared.1 (id ch) name (bytes_of exchange)
                    (bytes_of routing_key) in
  let r := Channel_setup_queue this queue_name exchange routing_key
                               passive durable auto_delete exclusive m in
  (reply_type (amqp_get_rpc_reply declared.1) <> AMQP_RESPONSE_NORMAL ->
   r = (called (connection ch) c declared.1 m,
        Raised (err_reply "Declaring queue" (amqp_get_rpc_reply declared.1))))
  /\ (forall name,
        reply_type (amqp_get_rpc_reply declared.1) = AMQP_RESPONSE_NORMAL ->
        declared.2 = Some name ->
        (exchange = "" \/ routing_key = "" ->
         r = (called (connection ch) c declared.1 m, Done name))
        /\ (exchange <> "" -> routing_key <> "" ->
            r = (called (connection ch) c (bound name) m,
                 match die_on_amqp_error (amqp_get_rpc_reply (bound name))
                                         "Binding queue" with
                 | Return _ => Done name
                 | Throw e => Raised e
                 end))).
Proof.
  intros Hch Hc. cbv zeta.
  rewrite (Channel_setup_queue_alive _ _ _ _ _ _ _ _ _ _ _ Hch Hc).
  cbv zeta. split.
  - intros Hn. unfold die_on_amqp_error.
    destruct (reply_type (amqp_get_rpc_reply _)); try reflexivity.
    congruence.
  - intros name Hn Hd.
    rewrite (proj2 (BrokerFacts.die_on_amqp_error_returns _ _) Hn), Hd. split.
    + intros [-> | ->].
      * now rewrite bool_decide_eq_true_2.
      * rewrite (bool_decide_eq_true_2 (""%string = ""%string)) by reflexivity.
        now rewrite andb_false_r.
    + intros He Hk. rewrite !bool_decide_eq_false_2 by assumption.
      reflexivity.
Qed.

(** ** The registry *)

Lemma Channel_dtor_alive this (m : Memory St) ch c :
  channels m !! this = Some ch ->
  connections m !! connection ch = Some c ->
  let closed := amqp_channel_close (state c) (id ch) in
  Channel_dtor this m
  = ({| serial := serial m;
        connections := connections (called (connection ch) c closed.1 m);
        channels := delete this (channels m) |},
     match die_on_amqp_error closed.2 "Closing channel" with
     | Return _ => Done tt
     | Throw e => Raised e
     end).
Proof.
  intros Hch Hc. cbv zeta. unfold Channel_dtor.
  unfold bind at 1. unfold deref_channel at 1. rewrite Hch.
  unfold bind at 1. unfold transport at 1. unfold bind at 1.
  unfold deref_connection at 1. rewrite Hc.
  destruct (amqp_channel_close (state c) (id ch)) as [st reply].
  unfold delete_channel. run_call.
  destruct (die_on_amqp_error reply "Closing channel") as [[]|e];
    reflexivity.
Qed.

(** X9: the destructor of [Channel] does not take the channel out of
    the registry.  When the broker accepts the close, the destructor
    returns, the channel is gone, the registry of its connection is
    what it was and still holds the address of the channel, and a turn
    of the worker that polls a delivery for that id calls
    [push_envelope] on the destroyed object. *)
Theorem destroyed_channel_stays_registered this (m : Memory St) ch c k :
  channels m !! this = Some ch ->
  connections m !! connection ch = Some c ->
  pool c !! k = Some (Some this) ->
  reply_type (amqp_channel_close (state c) (id ch)).2
  = AMQP_RESPONSE_NORMAL ->
  let closed := amqp_channel_close (state c) (id ch) in
  let r := Channel_dtor this m in
  let delivered :=
    amqp_consume_message (amqp_maybe_release_buffers closed.1) 100 in
  r.2 = Done tt
  /\ channels r.1 !! this = None
  /\ pool <$> connections r.1 !! connection ch = Some (pool c)
  /\ (reply_type delivered.2.1 = AMQP_RESPONSE_NORMAL ->
      channel delivered.2.2 = k ->
      (worker_iteration (connection ch) r.1).2 = Undefined).
Proof.
  intros Hch Hc Hk Hclose. cbv zeta.
  rewrite (Channel_dtor_alive _ _ _ _ Hch Hc). cbv zeta. cbn [fst snd].
  rewrite (proj2 (BrokerFacts.die_on_amqp_error_returns _ _) Hclose).
  set (st := (amqp_channel_close (state c) (id ch)).1).
  set (m' := {| serial := serial m;
                connections := connections (called (connection ch) c st m);
                channels := delete this (channels m) |}).
  assert (Hc' : connections m' !! connection ch
                = Some {| state := st; pool := pool c; run := run c |})
    by apply CommonFacts.called_connection.
  split; [reflexivity|].
  split; [apply lookup_delete_eq|]. split; [now rewrite Hc'|].
  intros Hn Hd.
  assert (Hp : pool {| state := st; pool := pool c; run := run c |} ≠ ∅).
  { cbn. intros E. rewrite E in Hk. now rewrite lookup_empty in Hk. }
  rewrite (CommonFacts.worker_iteration_busy _ _ _ Hc' Hp).
  cbn [state pool]. cbv zeta. rewrite Hn, Hd, Hk.
  destruct (decide _); [|contradiction].
  unfold push_envelope, bind, deref_channel, polled, called. subst m'.
  cbn [channels]. now rewrite lookup_delete_eq.
Qed.

(** X11: a turn of the worker whose poll is not answered normally
    queues nothing; a turn that polls a delivery for an id registered
    with a live channel appends the delivery to the queue of that
    channel, and leaves every other channel, the registries and the
    counter of ids as they were. *)
Theorem delivery_goes_to_its_channel conn (m : Memory St) c :
  connections m !! conn = Some c ->
  pool c ≠ ∅ ->
  let r := amqp_consume_message (amqp_maybe_release_buffers (state c)) 100 in
  (reply_type r.2.1 <> AMQP_RESPONSE_NORMAL ->
   worker_iteration conn m = (polled conn c m, Done tt))
  /\ (forall target tch,
        reply_type r.2.1 = AMQP_RESPONSE_NORMAL ->
        pool c !! channel r.2.2 = Some (Some target) ->
        channels m !! target = Some tch ->
        worker_iteration conn m
        = ({| serial := serial m;
              connections := connections (polled conn c m);
              channels :=
                <[target := {| id := id tch; connection := connection tch;
                               envelopes := envelopes tch ++ [r.2.2] |}]>
                  (channels m) |}, Done tt)).
Proof.
  intros Hc Hp. cbv zeta.
  rewrite (CommonFacts.worker_iteration_busy _ _ _ Hc Hp). cbv zeta. split.
  - intros Hn. destruct (decide _); [contradiction | reflexivity].
  - intros target tch Hn Hl Ht. rewrite Hl.
    destruct (decide _); [|contradiction].
    unfold push_envelope, bind, deref_channel, set_channel, polled, called.
    cbn [channels]. rewrite Ht. reflexivity.
Qed.

(** ** The counter of ids *)

Lemma Channel_ctor_serial this conn (m : Memory St) :
  is_Some (connections m !! conn) ->
  serial (Channel_ctor this conn m).1 = (serial m + 1) mod 65536.
Proof.
  intros [c Hc]. unfold Channel_ctor.
  unfold bind at 1. unfold deref_connection at 1. rewrite Hc.
  unfold bind at 1. unfold pre_increment_serial at 1. cbv zeta.
  unfold bind at 1. unfold transport at 1. unfold bind at 1.
  unfold deref_connection at 1. cbn [connections]. rewrite Hc.
  run_call.
  destruct (die_on_amqp_error _ _) as [[]|e]; unfold set_channel; reflexivity.
Qed.

Lemma perform_keeps_connections o (m : Memory St) conn :
  is_Some (connections m !! conn) ->
  is_Some (connections (perform o m) !! conn).
Proof.
  intros Hs. destruct o as [this c | this | this q t nl na ex];
    cbn [perform];
    unfold Channel_ctor, Channel_dtor, Channel_consume_register, transport,
      set_pool, set_connection, set_channel, delete_channel,
      pre_increment_serial, deref_connection, deref_channel, lift, bind, ret;
    cbn;
    repeat (case_match; cbn in *; simplify_eq; cbn in *);
    repeat (apply lookup_insert_is_Some'; right); assumption.
Qed.

(** X10: the counter of ids counts the constructions modulo 2^16.  In
    an execution whose constructors all name live connections, the
    counter ends at its start plus the number of constructions, modulo
    65536 - whether the constructors returned or threw; so the 65536th
    construction hands out the id the first one had less one, and ids
    come round again, 0 included. *)
Theorem serial_counts_constructions ops : forall (m : Memory St),
  0 <= serial m < 65536 ->
  on_live_connections ops m ->
  serial (execute ops m) = (serial m + constructions ops) mod 65536.
Proof.
  induction ops as [|o ops IH]; intros m Hs Hl.
  - cbn. unfold constructions. cbn. rewrite Z.add_0_r.
    symmetry. apply Z.mod_small. lia.
  - cbn [execute fold_left]. change (fold_left _ ops (perform o m))
      with (execute ops (perform o m)).
    rewrite CommonFacts.constructions_cons.
    assert (Hl' : on_live_connections ops (perform o m)).
    { intros this conn Hin. apply perform_keeps_connections.
      apply (Hl this conn). now right. }
    assert (Hstep : serial (perform o m) = (serial m + cost o) mod 65536).
    { destruct o as [this conn | this | this q t nl na ex];
        unfold cost; cbn [perform is_new].
      - apply Channel_ctor_serial. apply (Hl this conn). now left.
      - destruct (CommonFacts.Channel_dtor_effect this m) as [-> _].
        rewrite Z.add_0_r. symmetry. apply Z.mod_small. lia.
      - destruct (CommonFacts.Channel_consume_register_effect
                    this q t nl na ex m) as [-> _].
        rewrite Z.add_0_r. symmetry. apply Z.mod_small. lia. }
    rewrite IH; [|rewrite Hstep; apply Z.mod_pos_bound; lia | assumption].
    rewrite Hstep. rewrite Zplus_mod_idemp_l. f_equal. lia.
Qed.

End Facts.

Import Recorder Scenario.

Lemma setup_queue_binds_the_declared_queue_witness :
  let m := opened (accepting []) in
  let c := {| state := log (call_channel_open 1) (accepting []);
              pool := ∅; run := true |} in
  (reply_type (amqp_get_rpc_reply (state c)) <> AMQP_RESPONSE_NORMAL ->
   Channel_setup_queue 10 "" "amq.direct" "test" false false true true m
   = (called 0 c (state c) m,
      Raised (err_reply "Declaring queue" (amqp_get_rpc_reply (state c)))))
  /\ (forall name,
        reply_type (amqp_get_rpc_reply (state c)) = AMQP_RESPONSE_NORMAL ->
        Some "amq.gen-1" = Some name ->
        ("amq.direct" = "" \/ "test" = "" ->
         Channel_setup_queue 10 "" "amq.direct" "test" false false true true m
         = (called 0 c (state c) m, Done name))
        /\ ("amq.direct" <> "" -> "test" <> "" ->
            Channel_setup_queue 10 "" "amq.direct" "test" false false true
                                true m
            = (called 0 c (state c) m,
               match die_on_amqp_error (amqp_get_rpc_reply (state c))
                                       "Binding queue" with
               | Return _ => Done name
               | Throw e => Raised e
               end))).
Proof.
  cbv zeta.
  refine (setup_queue_binds_the_declared_queue
            10%N "" "amq.direct" "test" false false true true
            (opened (accepting []))
            {| id := 1; connection := 0%N; envelopes := [] |}
            {| state := log (call_channel_open 1) (accepting []);
               pool := ∅; run := true |} _ _);
    vm_compute; reflexivity.
Defined.

Lemma channel_calls_keep_the_objects_witness :
  (Channel_ack 10 7 false (opened (accepting []))).2 <> Undefined
  /\ same_objects (opened (accepting []))
                  (Channel_ack 10 7 false (opened (accepting []))).1.
Proof.
  refine (proj1 (proj2 (proj2 (proj2
            (channel_calls_keep_the_objects
               10%N "" "amq.direct" "test" false false true true
               {| properties := Recorder.blank_properties; body := "{}" |}
               false false 0 10 false 7 false true
               (opened (accepting []))
               {| id := 1; connection := 0%N; envelopes := [] |}
               {| state := log (call_channel_open 1) (accepting []);
                  pool := ∅; run := true |} _ _)))));
    vm_compute; reflexivity.
Defined.

Lemma destroyed_channel_stays_registered_witness :
  let m := consuming (accepting [envelope_on 1 "late"]) in
  (Channel_dtor 10 m).2 = Done tt
  /\ channels (Channel_dtor 10 m).1 !! 10%N = None
  /\ pool <$> connections (Channel_dtor 10 m).1 !! 0%N
     = Some {[1 := Some 10%N]}
  /\ (AMQP_RESPONSE_NORMAL = AMQP_RESPONSE_NORMAL ->
      1 = 1 ->
      (worker_iteration 0 (Channel_dtor 10 m).1).2 = Undefined).
Proof.
  cbv zeta.
  refine (destroyed_channel_stays_registered
            10%N (consuming (accepting [envelope_on 1 "late"]))
            {| id := 1; connection := 0%N; envelopes := [] |}
            {| state := log (call_basic_consume 1 "rpc" "" false true false)
                          (log (call_channel_open 1)
                               (accepting [envelope_on 1 "late"]));
               pool := {[1 := Some 10%N]}; run := true |} 1 _ _ _ _);
    vm_compute; reflexivity.
Defined.

Lemma delivery_goes_to_its_channel_witness :
  let m := consuming (accepting [envelope_on 1 "first"]) in
  let c := {| state := log (call_basic_consume 1 "rpc" "" false true false)
                         (log (call_channel_open 1)
                              (accepting [envelope_on 1 "first"]));
              pool := {[1 := Some 10%N]}; run := true |} in
  let r := amqp_consume_message (amqp_maybe_release_buffers (state c)) 100 in
  (reply_type r.2.1 <> AMQP_RESPONSE_NORMAL ->
   worker_iteration 0 m = (polled 0 c m, Done tt))
  /\ (forall target tch,
        reply_type r.2.1 = AMQP_RESPONSE_NORMAL ->
        pool c !! channel r.2.2 = Some (Some target) ->
        channels m !! target = Some tch ->
        worker_iteration 0 m
        = ({| serial := serial m;
              connections := connections (polled 0 c m);
              channels :=
                <[target := {| id := id tch; connection := connection tch;
                               envelopes := envelopes tch ++ [r.2.2] |}]>
                  (channels m) |}, Done tt)).
Proof.
  cbv zeta.
  refine (delivery_goes_to_its_channel
            0%N (consuming (accepting [envelope_on 1 "first"]))
            {| state := log (call_basic_consume 1 "rpc" "" false true false)
                          (log (call_channel_open 1)
                               (accepting [envelope_on 1 "first"]));
               pool := {[1 := Some 10%N]}; run := true |} _ _).
  - vm_compute. reflexivity.
  - vm_compute. discriminate.
Defined.

Lemma serial_counts_constructions_witness :
  serial (execute (churn 4) (initial (accepting [])))
  = (serial (initial (accepting [])) + constructions (churn 4)) mod 65536.
Proof.
  apply (serial_counts_constructions (churn 4) (initial (accepting []))).
  - vm_compute. split; [discriminate | reflexivity].
  - intros this conn Hin. apply list_elem_of_In in Hin.
    vm_compute in Hin.
    repeat (destruct Hin as [Hin | Hin];
            [first [discriminate Hin
                   | injection Hin as <- <-; vm_compute; eauto] | ]).
    contradiction.
Defined.

End SetupFacts.

(* ===================================================================== *)
(** * Facts: the exchanges of [send] and [listen] *)
(* ===================================================================== *)

Module ProtocolFacts.
Import Amqp Utils Broker Protocol.

(** ** The wait of [send] *)

Lemma body_loop_broken target : forall parts received frame r f rest,
  forallb is_body parts = true ->
  0 <= received ->
  received + total_len parts < target ->
  target < 2 ^ 64 ->
  0 <= r ->
  is_body (r, f) = false
  \/ target < received + total_len parts + fragment_len (fragment_of f)
     < 2 ^ 64 ->
  body_loop target received frame (parts ++ (r, f) :: rest) = BodyAborted.
Proof.
  induction parts as [|[r0 f0] parts IH];
    intros received frame r f rest Hb Hr Hlt H64 Hpos Hbad.
  - cbn in Hlt, Hbad. cbn [app body_loop].
    destruct (Z.ltb_spec received target); [|lia].
    destruct (Z.ltb_spec r 0); [lia|].
    unfold is_body, fragment_of in Hbad. cbn [fst snd] in Hbad.
    destruct (payload f) as [| |fragment|]; try reflexivity.
    destruct Hbad as [Hbad|Hbad].
    + apply andb_false_iff in Hbad as [Hbad|]; [|discriminate].
      apply Z.leb_gt in Hbad. lia.
    + pose proof (BrokerFacts.fragment_len_nonneg fragment).
      rewrite Z.mod_small by lia.
      destruct (Z.leb_spec (received + fragment_len fragment) target);
        [lia | reflexivity].
  - cbn [forallb] in Hb. apply andb_prop in Hb as [Hb0 Hb].
    rewrite BrokerFacts.total_len_cons in Hlt, Hbad. cbn [fst snd] in *.
    pose proof (BrokerFacts.total_len_nonneg parts).
    unfold is_body in Hb0. cbn [fst snd] in Hb0.
    apply andb_prop in Hb0 as [Hr0 Hf0]. apply Z.leb_le in Hr0.
    cbn [app body_loop]. unfold fragment_of at 1 in Hlt.
    unfold fragment_of at 1 3 in Hbad.
    destruct (payload f0) as [| |fragment|]; try discriminate.
    pose proof (BrokerFacts.fragment_len_nonneg fragment).
    destruct (Z.ltb_spec received target); [|lia].
    destruct (Z.ltb_spec r0 0); [lia|].
    rewrite Z.mod_small by lia.
    destruct (Z.leb_spec (received + fragment_len fragment) target); [|lia].
    apply IH; try assumption; try lia.
    destruct Hbad as [Hbad|Hbad]; [now left | right; lia].
Qed.

(** X12: a delivery that breaks the framing aborts the process: [send]
    neither throws nor returns.  After the [basic.deliver] frame, a
    frame that is not a content header aborts; after the header, while
    the body is short, a frame that is not a body frame, or a fragment
    that overshoots the announced size, aborts. *)
Theorem malformed_delivery_aborts pre r1 f1 r2 f2 :
  forallb skipped pre = true ->
  0 <= r1 -> is_deliver f1 = true ->
  0 <= r2 ->
  (forall rest,
     is_header f2 = false ->
     wait_reply (pre ++ (r1, f1) :: (r2, f2) :: rest) = Aborted)
  /\ (forall class_id body_size p parts r3 f3 rest,
        payload f2 = payload_properties class_id body_size p ->
        forallb is_body parts = true ->
        total_len parts < body_size mod 2 ^ 64 ->
        0 <= r3 ->
        is_body (r3, f3) = false
        \/ body_size mod 2 ^ 64
           < total_len parts + fragment_len (fragment_of f3) < 2 ^ 64 ->
        wait_reply (pre ++ (r1, f1) :: (r2, f2) :: parts ++ (r3, f3) :: rest)
        = Aborted).
Proof.
  intros Hpre Hr1 Hd Hr2. split.
  - intros rest Hh. rewrite BrokerFacts.wait_reply_skip by assumption.
    rewrite BrokerFacts.wait_reply_cons by assumption. rewrite Hd.
    cbn [after_deliver]. destruct (Z.ltb_spec r2 0); [lia|].
    unfold is_header in Hh. destruct (payload f2); try reflexivity.
    discriminate.
  - intros class_id body_size p parts r3 f3 rest Ep Hb Hlt Hr3 Hbad.
    rewrite BrokerFacts.wait_reply_skip by assumption.
    rewrite BrokerFacts.wait_reply_cons by assumption. rewrite Hd.
    cbn [after_deliver]. destruct (Z.ltb_spec r2 0); [lia|]. rewrite Ep.
    assert (body_size mod 2 ^ 64 < 2 ^ 64) by (apply Z.mod_pos_bound; lia).
    rewrite body_loop_broken; try assumption; try lia; reflexivity.
Qed.

(** X13: a reply with an empty body is never returned.  When the
    content header announces a body of size 0 (modulo 2^64, the size of
    [size_t]) the body loop is not entered, and the reply text is read
    from the body fragment of the header frame, which has none. *)
Theorem empty_reply_is_read_from_the_header
    pre r1 f1 r2 f2 class_id body_size p rest :
  forallb skipped pre = true ->
  0 <= r1 -> is_deliver f1 = true ->
  0 <= r2 ->
  payload f2 = payload_properties class_id body_size p ->
  body_size mod 2 ^ 64 = 0 ->
  wait_reply (pre ++ (r1, f1) :: (r2, f2) :: rest) = Undefined.
Proof.
  intros Hpre Hr1 Hd Hr2 Ep Hz.
  rewrite BrokerFacts.wait_reply_skip by assumption.
  rewrite BrokerFacts.wait_reply_cons by assumption. rewrite Hd.
  cbn [after_deliver]. destruct (Z.ltb_spec r2 0); [lia|]. rewrite Ep, Hz.
  destruct rest as [|[r3 f3] rest]; cbn; now rewrite Ep.
Qed.

Lemma after_body_relabel g p target : forall inbound received frame frame',
  payload frame' = payload frame ->
  after_body p target
    (body_loop target received frame' (map (relabel g) inbound))
  = after_body p target (body_loop target received frame inbound).
Proof.
  induction inbound as [|[r f] inbound IH]; intros received frame frame' Hp;
    cbn [map body_loop].
  - destruct (received <? target); [reflexivity|].
    cbn. now rewrite Hp.
  - destruct (received <? target); [|cbn; now rewrite Hp].
    unfold relabel at 1. cbn [fst snd payload].
    destruct (r <? 0); [cbn; now rewrite Hp|].
    destruct (payload f) as [| |fragment|] eqn:Ef; try reflexivity.
    destruct (_ <=? _); [|reflexivity].
    apply IH. cbn. now rewrite Ef.
Qed.

Lemma after_deliver_relabel g inbound :
  after_deliver (map (relabel g) inbound) = after_deliver inbound.
Proof.
  destruct inbound as [|[r f] inbound]; [reflexivity|].
  cbn [map after_deliver]. unfold relabel at 1. cbn [fst snd payload].
  destruct (r <? 0); [reflexivity|].
  destruct (payload f) as [|class_id body_size p| |] eqn:Ef; try reflexivity.
  apply after_body_relabel. cbn. now rewrite Ef.
Qed.

(** X14: [send] does not look at the channel a frame came on.  With the
    frames moved to any other channels the wait ends the same way, with
    the same reply. *)
Theorem wait_ignores_the_channel (g : Z -> Z) inbound :
  wait_reply (map (relabel g) inbound) = wait_reply inbound.
Proof.
  induction inbound as [|[r f] inbound IH]; [reflexivity|].
  cbn [map wait_reply]. unfold relabel at 1. cbn [fst snd payload].
  destruct (r <? 0); [reflexivity|].
  destruct (payload f) as [m| | |]; try exact IH.
  destruct (decide _); [apply after_deliver_relabel | exact IH].
Qed.

(** ** The request of [send] *)

Section Codec.
Variable load : string -> option JsonNode.
Variable to_data : JsonNode -> string.


End Codec.

Import RpcScenario.

Lemma malformed_delivery_aborts_witness :
  wait_reply [(0, heartbeat_frame); (0, deliver_frame 1);
              (0, header_frame 1 9 (reply_properties "1"));
              (0, body_frame 1 "[1,2,"); (0, heartbeat_frame);
              (0, body_frame 1 "3,4]")]
  = Aborted.
Proof.
  refine (proj2 (malformed_delivery_aborts
                   [(0, heartbeat_frame)] 0 (deliver_frame 1) 0
                   (header_frame 1 9 (reply_properties "1")) _ _ _ _)
                60 9 (reply_properties "1") [(0, body_frame 1 "[1,2,")]
                0 heartbeat_frame [(0, body_frame 1 "3,4]")] _ _ _ _ _);
    first [lia | reflexivity | now left].
Defined.

Lemma empty_reply_is_read_from_the_header_witness :
  wait_reply [(0, deliver_frame 1);
              (0, header_frame 1 0 (reply_properties "1"));
              (0, body_frame 1 "{}")]
  = Undefined.
Proof.
  refine (empty_reply_is_read_from_the_header
            [] 0 (deliver_frame 1) 0
            (header_frame 1 0 (reply_properties "1")) 60 0
            (reply_properties "1") [(0, body_frame 1 "{}")] _ _ _ _ _ _);
    first [lia | reflexivity].
Defined.


End ProtocolFacts.
